(** * nuxt-graphql-client: configuration resolution, schema preparation and
      runtime client state

    A shallow embedding of [src/module.ts] (the [setup] hook of the module),
    [src/generate.ts] (both variants of [prepareConfig], and [prepareSchemas])
    and [src/runtime/composables/index.ts] ([useGqlHeaders], [useGqlToken],
    [useGql], [useGqlError], [useAsyncGql]).

    Conventions of the embedding:
    - a JavaScript string is a [string]; the functions that look at single
      characters ([toUpperCase], [toLowerCase], [trim]) are exact on ASCII
      text, which is what client names, header values and file names are
      here;
    - an optional property ([x?: T]) is an [option]; JavaScript's [undefined]
      is [None];
    - a plain object used as a dictionary of headers is a [gmap] with string
      keys; an object whose key order is observed ([Object.entries],
      [Object.keys(...).find]) is an association list;
    - [throw new Error(msg)] is [Throw msg] in the [Result] monad;
    - an in-place mutation of an object reachable from the caller is an
      updated copy returned next to the result. *)

From Stdlib Require Import Ascii.
From stdpp Require Import gmap strings list fin_maps.

Set Default Proof Using "Type".

(** ** JavaScript strings *)

Module Js.

(** [!!s] for a possibly undefined string: [undefined] and [''] are falsy. *)
Definition truthy (o : option string) : bool :=
  match o with
  | Some s => negb (String.eqb s "")
  | None => false
  end.

(** [a || b] on possibly undefined strings. *)
Definition or (a b : option string) : option string :=
  if truthy a then a else b.

(** Template-literal rendering of a possibly undefined string. *)
Definition render (o : option string) : string := default "undefined" o.

Definition upper_char (c : ascii) : ascii :=
  let n := nat_of_ascii c in
  if (97 <=? n)%nat && (n <=? 122)%nat then ascii_of_nat (n - 32) else c.

Definition lower_char (c : ascii) : ascii :=
  let n := nat_of_ascii c in
  if (65 <=? n)%nat && (n <=? 90)%nat then ascii_of_nat (n + 32) else c.

Fixpoint map_chars (f : ascii → ascii) (s : string) : string :=
  match s with
  | EmptyString => EmptyString
  | String c r => String (f c) (map_chars f r)
  end.

Definition toUpperCase : string → string := map_chars upper_char.
Definition toLowerCase : string → string := map_chars lower_char.

(** [s.includes(sub)] *)
Fixpoint includes (s sub : string) : bool :=
  String.prefix sub s ||
  match s with
  | EmptyString => false
  | String _ r => includes r sub
  end.

(** ECMAScript white space and line terminators below U+0080. *)
Definition is_ws (c : ascii) : bool :=
  let n := nat_of_ascii c in
  ((9 <=? n)%nat && (n <=? 13)%nat) || (n =? 32)%nat.

Fixpoint trimStart (s : string) : string :=
  match s with
  | EmptyString => EmptyString
  | String c r => if is_ws c then trimStart r else s
  end.

Definition trimEnd (s : string) : string :=
  String.rev (trimStart (String.rev s)).

(** [s.trim()] *)
Definition trim (s : string) : string := trimEnd (trimStart s).

(** The first character of [s], if any, is not white space. *)
Definition starts_clean (s : string) : Prop :=
  match s with
  | EmptyString => True
  | String c _ => Js.is_ws c = false
  end.

(** Neither end of [s] is white space. *)
Definition clean (s : string) : Prop :=
  starts_clean s ∧ starts_clean (String.rev s).

End Js.

(** ** The error monad of [setup] and of the generation pass *)

Inductive Result (A : Type) : Type :=
| Ok (a : A)
| Throw (msg : string).
Arguments Ok {A} a.
Arguments Throw {A} msg.

Global Instance Result_ret : MRet Result := fun _ a => Ok a.

Global Instance Result_bind : MBind Result := fun _ _ k r =>
  match r with
  | Ok a => k a
  | Throw msg => Throw msg
  end.

Global Instance Result_fmap : FMap Result := fun _ _ f r =>
  match r with
  | Ok a => Ok (f a)
  | Throw msg => Throw msg
  end.

Definition is_ok {A} (r : Result A) : bool :=
  match r with Ok _ => true | Throw _ => false end.

(** ** Data model ([src/types.d.ts]) *)

Module Types.

(** A value of a [headers] object: a header string, or the nested
  [serverOnly] record. *)
Inductive HeaderValue : Type :=
| HStr (s : string)
| HObj (m : gmap string string).

Abbreviation Headers := (gmap string HeaderValue).

(** [type TokenOpts = { name?: string, value?: string, type?: string }] *)
Record TokenOpts : Type := mkTokenOpts {
name : option string;
value : option string;
type : option string
}.

(** The [token] of a user-supplied client: [string | TokenOpts]. *)
Inductive TokenCfg : Type :=
| TokStr (s : string)
| TokObj (t : TokenOpts).

(** [interface GqlClient<T>]; every property is optional in the places the
  code reads it ([Partial<GqlClient>]). *)
Record GqlClient (T : Type) : Type := mkGqlClient {
host : option string;
clientHost : option string;
schema : option string;
token : option T;
retainToken : option bool;
proxyCookies : option bool;
headers : option Headers
}.
Arguments mkGqlClient {T}.
Arguments host {T}.
Arguments clientHost {T}.
Arguments schema {T}.
Arguments token {T}.
Arguments retainToken {T}.
Arguments proxyCookies {T}.
Arguments headers {T}.

(** An entry of [config.clients] before resolution: [string | GqlClient]. *)
Inductive ClientCfg : Type :=
| CStr (s : string)
| CObj (c : GqlClient TokenCfg).

End Types.
Export Types.

(** ** Configuration resolution ([src/module.ts], [setup]) *)

Module Setup.

(** Modelled from the spec: [deepmerge] of [./runtime/utils], which is not
    among the sources.  The spec describes it as a deep merge of a partial
    object into an existing one that keeps every key; merged into the empty
    object it yields an object with the keys and values of its argument, and
    the two objects [setup] makes of one [conf] are taken to be separate. *)
Definition deepmerge_empty {A : Type} (conf : A) : A := conf.

(** What one turn of the loop over [Object.entries(config.clients)] writes. *)
Record ClientOut : Type := mkClientOut {
  conf : GqlClient TokenOpts;           (* config.clients[k] *)
  publicConf : GqlClient TokenOpts;     (* runtimeConfig.public['graphql-client'].clients[k] *)
  privateConf : option TokenOpts        (* runtimeConfig['graphql-client'].clients[k].token *)
}.

(** The objects [setup] has written when the loop is over. *)
Record Resolved : Type := mkResolved {
  config_clients : list (string * GqlClient TokenOpts);
  public_clients : gmap string (GqlClient TokenOpts);
  private_clients : gmap string TokenOpts;
  clientOps : gmap string (list string)
}.

Definition missingHost (k : string) : string :=
  "GraphQL client (" +:+ k +:+ ") is missing it's host.".

Definition hostNotSet : string := "GQL_HOST is not set in public runtimeConfig".

Section WithEnvironment.

(** [process.env] *)
Variable env : gmap string string.
(** [nuxt.options.runtimeConfig.public.GQL_HOST] and [.GQL_CLIENT_HOST] *)
Variable public_GQL_HOST public_GQL_CLIENT_HOST : option string.
(** [srcResolver.resolve] and [existsSync] *)
Variable resolve : string → string.
Variable existsSync : string → bool.

(** The name of the variable read for client [k]:
    [k === 'default' ? GQL_<what> : `GQL_${k.toUpperCase()}_<what>`]. *)
Definition envName (k what : string) : string :=
  if String.eqb k "default" then "GQL_" +:+ what
  else "GQL_" +:+ Js.toUpperCase k +:+ "_" +:+ what.

Definition runtimeVar (k what : string) : option string :=
  env !! envName k what.

(** [typeof v === 'string' ? v : v?.host] *)
Definition userHost (v : ClientCfg) : option string :=
  match v with
  | CStr s => Some s
  | CObj c => host c
  end.

(** [typeof v !== 'string' && v.clientHost]; the [false] of a string
    entry is as falsy as [undefined]. *)
Definition userClientHost (v : ClientCfg) : option string :=
  match v with
  | CStr _ => None
  | CObj c => clientHost c
  end.

(** [typeof v !== 'string' && ((typeof v?.token === 'object' && v.token?.value)
    || (typeof v?.token === 'string' && v.token))] *)
Definition userToken (v : ClientCfg) : option string :=
  match v with
  | CStr _ => None
  | CObj c =>
      match token c with
      | Some (TokObj t) => Js.or (value t) None
      | Some (TokStr s) => Js.or (Some s) None
      | None => None
      end
  end.

(** [typeof v !== 'string' && typeof v?.token === 'object' && v.token.name] *)
Definition userTokenName (v : ClientCfg) : option string :=
  match v with
  | CObj c => match token c with Some (TokObj t) => name t | _ => None end
  | CStr _ => None
  end.

(** [typeof v !== 'string' && typeof v?.token === 'object' && v?.token?.type],
    [None] when the test fails or the type is [undefined]. *)
Definition userTokenType (v : ClientCfg) : option string :=
  match v with
  | CObj c => match token c with Some (TokObj t) => type t | _ => None end
  | CStr _ => None
  end.

(** [(typeof v !== 'string' && typeof v?.token === 'object' &&
    v?.token?.type !== undefined) ? v?.token?.type : 'Bearer'] *)
Definition tokenTypeOf (v : ClientCfg) : string :=
  default "Bearer" (userTokenType v).

Definition hostOf (k : string) (v : ClientCfg) : option string :=
  Js.or (runtimeVar k "HOST") (userHost v).

Definition clientHostOf (k : string) (v : ClientCfg) : option string :=
  Js.or (runtimeVar k "CLIENT_HOST") (userClientHost v).

Definition tokenOf (k : string) (v : ClientCfg) : option string :=
  Js.or (runtimeVar k "TOKEN") (userToken v).

Definition tokenNameOf (k : string) (v : ClientCfg) : option string :=
  Js.or (Js.or (runtimeVar k "TOKEN_NAME") (userTokenName v)) (Some "Authorization").

(** [(typeof v !== 'string' && v?.schema) && srcResolver.resolve(v.schema)] *)
Definition schemaOf (v : ClientCfg) : option string :=
  match v with
  | CObj c => if Js.truthy (schema c) then resolve <$> schema c else None
  | CStr _ => None
  end.

(** The spread [...(typeof v !== 'string' && { ...v })]: the property of
    the user's object, absent for a string entry. *)
Definition spread {A : Type} (f : GqlClient TokenCfg → option A)
    (v : ClientCfg) : option A :=
  match v with
  | CObj c => f c
  | CStr _ => None
  end.

(** The body of the loop, lines 65 to 112. *)
Definition resolveClient (k : string) (v : ClientCfg) : Result ClientOut :=
  let host := hostOf k v in
  let clientHost := clientHostOf k v in
  if negb (Js.truthy host) then Throw (missingHost k) else
  let token := tokenOf k v in
  let tokenName := tokenNameOf k v in
  let tokenType := tokenTypeOf v in
  let schema := schemaOf v in
  let conf_token :=
    {| value := if Js.truthy token then token else None;
       name := if Js.truthy tokenName then tokenName else None;
       type := Some tokenType |} in
  let conf :=
    {| host := host;
       clientHost :=
         if Js.truthy clientHost then clientHost else spread Types.clientHost v;
       schema :=
         if Js.truthy schema && from_option existsSync false schema
         then schema else spread Types.schema v;
       token := Some conf_token;
       retainToken := spread Types.retainToken v;
       proxyCookies := Some (default true (spread Types.proxyCookies v));
       headers := spread Types.headers v |} in
  let public :=
    if Js.truthy (value conf_token)
       && negb (default false (spread Types.retainToken v))
    then
      {| host := Types.host conf; clientHost := Types.clientHost conf;
         schema := Types.schema conf;
         token := Some {| value := None; name := name conf_token;
                          type := type conf_token |};
         retainToken := Types.retainToken conf;
         proxyCookies := Types.proxyCookies conf;
         headers := Types.headers conf |}
    else deepmerge_empty conf in
  Ok {| conf := deepmerge_empty conf;
        publicConf := public;
        privateConf :=
          if Js.truthy (value conf_token) then Some conf_token else None |}.

(** [ctx.clientOps[k] = []] and the three assignments at the end of a
    turn. *)
Definition record (k : string) (out : ClientOut) (st : Resolved) : Resolved :=
  {| config_clients := config_clients st ++ [(k, conf out)];
     public_clients := <[k := publicConf out]> (public_clients st);
     private_clients :=
       match privateConf out with
       | Some t => <[k := t]> (private_clients st)
       | None => private_clients st
       end;
     clientOps := <[k := []]> (clientOps st) |}.

Fixpoint resolveClients (entries : list (string * ClientCfg))
    (st : Resolved) : Result Resolved :=
  match entries with
  | [] => Ok st
  | (k, v) :: rest =>
      out ← resolveClient k v;
      resolveClients rest (record k out st)
  end.

(** Lines 47 to 58: no client is declared. *)
Definition implicitClients : Result (list (string * ClientCfg)) :=
  let host := Js.or (env !! "GQL_HOST") public_GQL_HOST in
  let clientHost := Js.or (env !! "GQL_CLIENT_HOST") public_GQL_CLIENT_HOST in
  if negb (Js.truthy host) then Throw hostNotSet else
  Ok [("default",
       if negb (Js.truthy clientHost) then CStr (default "" host)
       else CObj {| host := host; clientHost := clientHost;
                    schema := None; token := None; retainToken := None;
                    proxyCookies := None; headers := None |})].

Definition initial : Resolved :=
  {| config_clients := []; public_clients := ∅;
     private_clients := ∅; clientOps := ∅ |}.

(** [setup], up to the end of the loop over the clients. *)
Definition setup (clients : list (string * ClientCfg)) : Result Resolved :=
  entries ← (if (length clients =? 0)%nat then implicitClients else Ok clients);
  resolveClients entries initial.

(** [srcResolver.resolve()], the source directory. *)
Variable srcDir : string.

(** The [documentPaths] array, lines 115 to 127: the source directory, then
    the configured paths that exist, resolved; a path that does not exist is
    warned about and left out. *)
Definition documentPaths (configured : option (list string)) : list string :=
  srcDir ::
  match configured with
  | Some paths => List.filter existsSync (resolve <$> paths)
  | None => []
  end.

End WithEnvironment.

End Setup.


(** ** Preparing the code-generation config ([src/generate.ts]) *)

Module Generate.

(** One element of [Types.Config['schema']]: a string ([v.schema] or
    [v.host]), or [{ [v.host]: { headers } }]. *)
Inductive SchemaSpec : Type :=
| SStr (s : option string)
| SUrl (host : string) (hdrs : Headers).

(** [v?.token?.value] *)
Definition tokenValue (v : GqlClient TokenOpts) : option string :=
  token v ≫= value.

(** [`${v?.token?.type} ${v?.token?.value}`.trim()] *)
Definition authValue (tokenType tokenValue : option string) : string :=
  Js.trim (Js.render tokenType +:+ " " +:+ Js.render tokenValue).

(** [const token = v?.token?.value && `${type} ${value}`.trim()]: the header
    value when the token is truthy, a falsy value otherwise. *)
Definition authToken (v : GqlClient TokenOpts) : option string :=
  if Js.truthy (tokenValue v) then Some (authValue (token v ≫= type) (tokenValue v))
  else None.

(** [!!x] for a value of a headers object. *)
Definition truthyValue (o : option HeaderValue) : bool :=
  match o with
  | Some (HObj _) => true
  | Some (HStr s) => Js.truthy (Some s)
  | None => false
  end.

(** [typeof h?.serverOnly === 'object' && h?.serverOnly], spread into an
    object literal: the entries of the sub-mapping, nothing for a falsy or
    non-object value. *)
Definition serverHeadersOf (h : option Headers) : Headers :=
  match h ≫= (.!! "serverOnly") with
  | Some (HObj m) => HStr <$> m
  | _ => ∅
  end.

(** [if (h?.serverOnly) { delete h.serverOnly }] *)
Definition dropServerOnly (h : Headers) : Headers :=
  if truthyValue (h !! "serverOnly") then delete "serverOnly" h else h.

(** [{ ...headers, ...(token && { [v.token.name]: token }) }] *)
Definition withToken (v : GqlClient TokenOpts) (tok : option string)
    (h : Headers) : Headers :=
  match tok with
  | Some t =>
      if Js.truthy tok then <[Js.render (token v ≫= name) := HStr t]> h else h
  | None => h
  end.

(** The headers sent along with the introspection query of client [v]:
    [v.headers] without its [serverOnly] key, overridden by the server-only
    entries, overridden by the auth header. *)
Definition introspectionHeaders (v : GqlClient TokenOpts) : Headers :=
  let serverHeaders := serverHeadersOf (headers v) in
  let hdrs :=
    match headers v with
    | Some h => serverHeaders ∪ dropServerOnly h
    | None => ∅
    end in
  withToken v (authToken v) hdrs.

(** The client object [v] with [h] for its [headers]. *)
Definition withHeaders (h : option Headers) (v : GqlClient TokenOpts)
    : GqlClient TokenOpts :=
  {| host := host v; clientHost := clientHost v; schema := schema v;
     token := token v; retainToken := retainToken v;
     proxyCookies := proxyCookies v; headers := h |}.

(** The client object after the turn: [delete v.headers.serverOnly]. *)
Definition strip (v : GqlClient TokenOpts) : GqlClient TokenOpts :=
  withHeaders (dropServerOnly <$> headers v) v.

(** The callback of [Object.values(options.clients).map], lines 18 to 31:
    the schema element and the client object as the callback leaves it. *)
Definition prepareClient (v : GqlClient TokenOpts)
    : SchemaSpec * GqlClient TokenOpts :=
  if Js.truthy (schema v) then (SStr (schema v), v)
  else if negb (Js.truthy (tokenValue v)) && negb (bool_decide (is_Some (headers v)))
  then (SStr (host v), v)
  else (SUrl (Js.render (host v)) (introspectionHeaders v), strip v).

(** [prepareConfig]: the [schema] of the returned config, and
    [options.clients] as the call leaves it. *)
Definition prepareConfig (clients : list (string * GqlClient TokenOpts))
    : list SchemaSpec * list (string * GqlClient TokenOpts) :=
  (fst ∘ prepareClient ∘ snd <$> clients,
   prod_map id (snd ∘ prepareClient) <$> clients).

End Generate.


(** ** The stitching variant of the generation config ([prepareSchemas] and
       [prepareConfig] of the second [generate.ts]) *)

Module Stitch.

(** [interface StitchOptions] *)
Record StitchOptions : Type := mkStitchOptions {
  mergeTypes : option bool;
  prefixTypes : option bool;
  prefixFields : option bool
}.

(** [stitchSchemas?: boolean | StitchOptions] *)
Inductive StitchCfg : Type :=
| StitchBool (b : bool)
| StitchObj (o : StitchOptions).

(** [!!options.stitchSchemas] *)
Definition stitching (c : option StitchCfg) : bool :=
  match c with
  | Some (StitchBool b) => b
  | Some (StitchObj _) => true
  | None => false
  end.

(** [defu({}, options.stitchSchemas, { mergeTypes: true })]: the properties of
    an options object, [mergeTypes] defaulting to [true]; a bare [true] gives
    the defaults alone. *)
Definition stitchOptionsOf (c : StitchCfg) : StitchOptions :=
  match c with
  | StitchObj o =>
      {| mergeTypes := Some (default true (mergeTypes o));
         prefixTypes := prefixTypes o; prefixFields := prefixFields o |}
  | StitchBool _ =>
      {| mergeTypes := Some true; prefixTypes := None; prefixFields := None |}
  end.

(** A value of the [schemas] record handed to [prepareSchemas]:
    [string | { host, headers }]. *)
Inductive SchemaEntry : Type :=
| EStr (s : option string)
| EObj (host : option string) (hdrs : Headers).

(** The three root operation types. *)
Inductive RootOp : Type := Query | Mutation | Subscription.

Global Instance RootOp_eq_dec : EqDecision RootOp.
Proof. solve_decision. Defined.

(** Modelled from the spec: a [GraphQLSchema] of [graphql], which is not
    among the sources, as far as names go: the named types it declares and
    the fields of its root operation types. *)
Record GraphQLSchema : Type := mkSchema {
  typeNames : list string;
  rootFields : list (RootOp * string)
}.

(** Modelled from the spec: [new RenameTypes(rename)] of [@graphql-tools/wrap],
    the type-name prefixing of a client's schema. *)
Definition RenameTypes (rename : string → string) (s : GraphQLSchema) : GraphQLSchema :=
  {| typeNames := rename <$> typeNames s; rootFields := rootFields s |}.

(** Modelled from the spec: [new RenameRootFields(rename)] of
    [@graphql-tools/wrap], the root-field-name prefixing of a client's
    schema. *)
Definition RenameRootFields (rename : RootOp → string → string)
    (s : GraphQLSchema) : GraphQLSchema :=
  {| typeNames := typeNames s;
     rootFields := (λ rf, (rf.1, rename rf.1 rf.2)) <$> rootFields s |}.

(** Modelled from the spec: [wrapSchema({ schema, transforms })] of
    [@graphql-tools/wrap], the transforms applied in the order of the
    array. *)
Definition wrapSchema (transforms : list (GraphQLSchema → GraphQLSchema))
    (s : GraphQLSchema) : GraphQLSchema :=
  foldl (λ acc t, t acc) s transforms.

(** Modelled from the spec: [stitchSchemas({ subschemas, mergeTypes })] of
    [@graphql-tools/stitch], the merge of all client schemas into one: the
    types and the root fields of all, a name declared twice being declared
    once in the result. *)
Definition stitchSchemas (subschemas : list GraphQLSchema)
    (mergeTypes : option bool) : GraphQLSchema :=
  {| typeNames := remove_dups (subschemas ≫= typeNames);
     rootFields := remove_dups (subschemas ≫= rootFields) |}.

Definition rootName (op : RootOp) : string :=
  match op with
  | Query => "Query"
  | Mutation => "Mutation"
  | Subscription => "Subscription"
  end.

(** Modelled from the spec: [printSchema] of [graphql], the unified schema
    in its textual representation, line by line; a root field [f] of
    operation [op] is printed as the line [op.f]. *)
Definition printSchema (s : GraphQLSchema) : list string :=
  ((λ t, "type " +:+ t) <$> typeNames s)
  ++ ((λ rf, rootName rf.1 +:+ "." +:+ rf.2) <$> rootFields s).

(** [`${k}_${name}`], the renaming of both transforms. *)
Definition prefixed (k name : string) : string := k +:+ "_" +:+ name.

(** The [transforms] array built for client [k], lines 43 to 46. *)
Definition transformsOf (k : string) (options : option StitchOptions)
    : list (GraphQLSchema → GraphQLSchema) :=
  (if default false (options ≫= prefixTypes)
   then [RenameTypes (prefixed k)] else [])
  ++ (if default false (options ≫= prefixFields)
      then [RenameRootFields (λ _ fieldName, prefixed k fieldName)] else []).

(** [/^(https?:)?\/\//.test(host)] *)
Definition isRemote (host : string) : bool :=
  String.prefix "//" host || String.prefix "http://" host
  || String.prefix "https://" host.

(** [typeof v === 'string' ? v : v.host] *)
Definition hostOfEntry (v : SchemaEntry) : option string :=
  match v with
  | EStr s => s
  | EObj h _ => h
  end.

(** [typeof v === 'string' ? {} : v.headers] *)
Definition headersOfEntry (v : SchemaEntry) : Headers :=
  match v with
  | EStr _ => ∅
  | EObj _ h => h
  end.

(** ['Unable to load local schema file: ' + v] *)
Definition unableToLoad (v : SchemaEntry) : string :=
  "Unable to load local schema file: " +:+
  match v with
  | EStr s => Js.render s
  | EObj _ _ => "[object Object]"
  end.

Section WithLoaders.

(** [introspectSchema(executor)] for the executor that posts to [host] with
    [headers]: the schema of the endpoint, or the error of the request. *)
Variable introspectSchema : string → Headers → Result GraphQLSchema.
(** [loadSchema(v, { loaders: [new GraphQLFileLoader()] })]: [None] when the
    promise is rejected. *)
Variable loadSchema : SchemaEntry → option GraphQLSchema.

(** [generateSchema({ host, headers, transforms })] *)
Definition generateSchema (host : string) (hdrs : Headers)
    (transforms : list (GraphQLSchema → GraphQLSchema)) : Result GraphQLSchema :=
  s ← introspectSchema host hdrs;
  mret (wrapSchema transforms s).

(** The schema source of the entry [v] answers with the schema [s]: the
    endpoint when the host is a remote URL, the loader otherwise. *)
Definition resolvesTo (v : SchemaEntry) (s : GraphQLSchema) : Prop :=
  v ≠ EStr None
  ∧ if isRemote (Js.render (hostOfEntry v))
    then introspectSchema (Js.render (hostOfEntry v)) (headersOfEntry v) = Ok s
    else loadSchema v = Some s.

(** The entry is a local file, or the host of an entry that is not a URL,
    and loading it fails. *)
Definition localLoadFails (v : SchemaEntry) : Prop :=
  v ≠ EStr None
  ∧ isRemote (Js.render (hostOfEntry v)) = false
  ∧ loadSchema v = None.

(** One turn of the loop of [prepareSchemas], lines 40 to 59. *)
Definition clientSchema (options : option StitchOptions) (k : string)
    (v : SchemaEntry) : Result GraphQLSchema :=
  match v with
  | EStr None =>
      Throw "TypeError: Cannot read properties of undefined (reading 'host')"
  | _ =>
      let host := hostOfEntry v in
      let hdrs := headersOfEntry v in
      let transforms := transformsOf k options in
      if isRemote (Js.render host)
      then generateSchema (Js.render host) hdrs transforms
      else
        match wrapSchema transforms <$> loadSchema v with
        | Some s => Ok s
        | None => Throw (unableToLoad v)
        end
  end.

Fixpoint subschemasOf (options : option StitchOptions)
    (schemas : list (string * SchemaEntry)) : Result (list GraphQLSchema) :=
  match schemas with
  | [] => Ok []
  | (k, v) :: rest =>
      s ← clientSchema options k v;
      ss ← subschemasOf options rest;
      mret (s :: ss)
  end.

(** [prepareSchemas(schemas, options)] *)
Definition prepareSchemas (schemas : list (string * SchemaEntry))
    (options : option StitchOptions) : Result (list string) :=
  subschemas ← subschemasOf options schemas;
  mret (printSchema (stitchSchemas subschemas (options ≫= mergeTypes))).

(** [options.resolver.resolve] *)
Variable resolve : string → string.

(** The callback of [reduce], lines 66 to 89: the element for an array
    accumulator, the entry for an object accumulator, and the client object
    as the callback leaves it. *)
Definition prepareClient (v : GqlClient TokenOpts)
    : Generate.SchemaSpec * SchemaEntry * GqlClient TokenOpts :=
  if Js.truthy (schema v) then
    let v' :=
      {| host := host v; clientHost := clientHost v;
         schema := resolve <$> schema v;
         token := token v; retainToken := retainToken v;
         proxyCookies := proxyCookies v; headers := headers v |} in
    (Generate.SStr (schema v'), EStr (schema v'), v')
  else if negb (Js.truthy (Generate.tokenValue v))
          && negb (bool_decide (is_Some (headers v)))
  then (Generate.SStr (host v), EStr (host v), v)
  else
    let hdrs := Generate.introspectionHeaders v in
    (Generate.SUrl (Js.render (host v)) hdrs, EObj (host v) hdrs,
     Generate.strip v).

(** The [schema] of the config [prepareConfig] returns. *)
Inductive SchemaOut : Type :=
| Specs (l : list Generate.SchemaSpec)
| Printed (sdl : list string).

(** [prepareConfig(options)]: the [schema] of the returned config, or the
    error thrown, and [options.clients] as the call leaves it (the callback
    has run over every client before [prepareSchemas] is called). *)
Definition prepareConfig (stitch : option StitchCfg)
    (clients : list (string * GqlClient TokenOpts))
    : Result SchemaOut * list (string * GqlClient TokenOpts) :=
  let clients' := prod_map id (λ v, (prepareClient v).2) <$> clients in
  let specs := (λ kv, (prepareClient kv.2).1.1) <$> clients in
  let entries := prod_map id (λ v, (prepareClient v).1.2) <$> clients in
  match stitch with
  | Some c =>
      if stitching stitch
      then (Printed <$> prepareSchemas entries (Some (stitchOptionsOf c)), clients')
      else (Ok (Specs specs), clients')
  | None => (Ok (Specs specs), clients')
  end.

End WithLoaders.

End Stitch.


(** ** Document discovery ([allowDocument] and [generateGqlTypes] of
       [src/module.ts]) *)

Module Documents.

(** The longest prefix of [s] without a slash. *)
Fixpoint takeName (s : string) : string :=
  match s with
  | EmptyString => EmptyString
  | String c r => if Ascii.eqb c "/" then EmptyString else String c (takeName r)
  end.

Fixpoint skip (n : nat) (s : string) : string :=
  match n, s with
  | S n', String _ r => skip n' r
  | _, _ => s
  end.

(** [s.endsWith(suffix)] *)
Definition endsWith (s suffix : string) : bool :=
  String.prefix (String.rev suffix) (String.rev s).

(** [path.match(/\.(gql|graphql)$/)], as a test. *)
Definition hasDocumentExtension (path : string) : bool :=
  endsWith path ".gql" || endsWith path ".graphql".

(** The match of [/([^/]+)\.<ext>$/] in [f] for one alternative [ext]
    (written with its dot): the run of non-slash characters that ends where
    the extension starts, followed by the extension; no match when [f] does
    not end with the extension or when that run is empty. *)
Definition matchWith (ext f : string) : option string :=
  if endsWith f ext then
    let stem := takeName (skip (String.length ext) (String.rev f)) in
    if String.eqb stem "" then None else Some (String.rev stem +:+ ext)
  else None.

(** [f.match(/([^/]+)\.(gql|graphql)$/)?.[0]] *)
Definition matchDocument (f : string) : option string :=
  match matchWith ".gql" f with
  | Some m => Some m
  | None => matchWith ".graphql" f
  end.

(** The part of a path after its last slash. *)
Definition basename (f : string) : string :=
  String.rev (takeName (String.rev f)).



Section WithFiles.

(** [statSync(srcResolver.resolve(f)).size], for the files the function is
    called on: those the glob has just listed, and the file of a watcher
    event other than [unlink]. *)
Variable size : string → N.
(** [resolveFiles(path, [gqlMatch, '!**/schemas'], { followSymbolicLinks: false })] *)
Variable resolveFiles : string → list string.

(** [f.match(...)?.[0]?.toLowerCase().includes('schema')], [undefined]
    counting as [false]. *)
Definition isSchema (f : string) : bool :=
  match matchDocument f with
  | Some m => Js.includes (Js.toLowerCase m) "schema"
  | None => false
  end.

Definition allowDocument (f : string) : bool :=
  negb (isSchema f) && negb (size f =? 0)%N.

(** The [documents] array of [generateGqlTypes], lines 131 to 136. *)
Definition documents (documentPaths : list string) : list string :=
  documentPaths ≫= (λ path, List.filter allowDocument (resolveFiles path)).

(** The [plugins] array, lines 138 to 142. *)
Definition plugins (docs : list string) : list string :=
  ["typescript"]
  ++ (if (length docs =? 0)%nat then []
      else ["typescript-operations"; "ohmygql/plugin"]).

(** Whether a [builder:watch] event starts a regeneration, lines 210 to 212. *)
Definition regenerates (event path : string) : bool :=
  hasDocumentExtension path
  && (String.eqb event "unlink" || allowDocument path).

(** [s.slice(start, end)] for indices that are not negative, on text whose
    characters are one code unit each. *)
Definition slice (s : string) (first last : nat) : string :=
  String.substring first (last - first) s.

(** A definition of a parsed document, as far as the loop reads it:
    [op?.name?.value], and [op.loc] with its [source.body], [start] and
    [end]. *)
Record DefinitionNode : Type := mkDefinitionNode {
  defName : option string;
  loc : option (string * nat * nat)
}.

(** [parse(readFileSync(d, 'utf-8'))?.definitions], or the syntax error. *)
Variable parseDocument : string → Result (list DefinitionNode).

(** [op.loc?.source.body.slice(op.loc.start, op.loc.end) || undefined] *)
Definition operationText (op : DefinitionNode) : option string :=
  match loc op with
  | Some (body, first, last) => Js.or (Some (slice body first last)) None
  | None => None
  end.

(** The definition gives an operation [name] with the text [text], neither
    of them empty. *)
Definition defines (op : DefinitionNode) (name text : string) : Prop :=
  defName op = Some name ∧ name ≠ ""
  ∧ operationText op = Some text ∧ text ≠ "".

(** [if (name && operation) { acc[name] = operation }] *)
Definition addOperation (acc : gmap string string) (op : DefinitionNode)
    : gmap string string :=
  match defName op, operationText op with
  | Some name, Some operation =>
      if Js.truthy (Some name) && Js.truthy (Some operation)
      then <[name := operation]> acc else acc
  | _, _ => acc
  end.

(** The record handed to [mockPlugin] when code generation is off, lines 154
    to 165: the operations of all documents by name. *)
Fixpoint mockOperations (acc : gmap string string) (docs : list string)
    : Result (gmap string string) :=
  match docs with
  | [] => Ok acc
  | d :: rest =>
      definitions ← parseDocument d;
      mockOperations (foldl addOperation acc definitions) rest
  end.

End WithFiles.

End Documents.


(** ** The earlier [generate.ts] (its [prepareConfig]) *)

Module Legacy.

(** The callback of [Object.values(options.clients).map], lines 168 to 176. *)
Definition prepareClient (v : GqlClient TokenOpts) : Generate.SchemaSpec :=
  if Js.truthy (schema v) then Generate.SStr (schema v)
  else if negb (Js.truthy (Generate.tokenValue v)) then Generate.SStr (host v)
  else
    let tok := Generate.authValue (token v ≫= type) (Generate.tokenValue v) in
    Generate.SUrl (Js.render (host v))
      (<[Js.render (token v ≫= name) := HStr tok]> (default ∅ (headers v))).

(** The [schema] of the config [prepareConfig] returns. *)
Definition prepareConfig (clients : list (string * GqlClient TokenOpts))
    : list Generate.SchemaSpec :=
  prepareClient ∘ snd <$> clients.

End Legacy.


(** ** The runtime composables ([src/runtime/composables/index.ts]) *)

Module Composables.

(** The [headers] of a patch: a header set to a value, or to [undefined]
    ([None]). *)
Abbreviation PatchHeaders := (gmap string (option HeaderValue)).

(** The [patch: RequestInit] handed to [setGqlState]. *)
Inductive Patch : Type :=
| PHeaders (h : option PatchHeaders)
| PCors (mode credentials : option string).

(** [state.value[client].instance.setOptions(patch)]: one call on the
    transport instance of [client]. *)
Record SetOptions : Type := mkSetOptions {
  target : string;
  patch : Patch
}.

(** [setGqlState({ client = 'default', patch })] *)
Definition setGqlState (client : option string) (p : Patch) : SetOptions :=
  {| target := default "default" client; patch := p |}.

(** [client || 'default'] *)
Definition orDefault (client : option string) : string :=
  default "default" (Js.or client (Some "default")).

(** Modelled from the spec: [setOptions] of the transport instance, which
    belongs to the transport package and is not among the sources.  The spec
    gives header patches key-level replace-or-add semantics, keeps the keys
    the patch does not mention, and has a header patched to [undefined]
    unset. *)
Definition setHeaders (p : PatchHeaders) (current : Headers) : Headers :=
  merge (λ new old,
           match new with
           | Some (Some v) => Some v
           | Some None => None
           | None => old
           end) p current.

(** The arguments of [useGqlHeaders], both call forms brought to the
    options object ([respectDefaults] is [undefined] in the positional
    form; [headers] is [None] for [null]). *)
Record HeadersArgs : Type := mkHeadersArgs {
  headers : option (gmap string string);
  client : option string;
  respectDefaults : option bool
}.

(** [interface GqlTokenConfig] *)
Record GqlTokenConfig : Type := mkTokenConfig {
  name : option string;
  type : option string
}.

Definition DEFAULT_AUTH : GqlTokenConfig :=
  {| type := Some "Bearer"; name := Some "Authorization" |}.

(** The [config] object a caller gives to [useGqlToken].  The spread
    [...config] copies every key the object has, so a key that is left out
    ([None]) is told from a key written with the value [undefined]
    ([Some None]); both are within [interface GqlTokenConfig]. *)
Record GivenConfig : Type := mkGivenConfig {
  givenName : option (option string);
  givenType : option (option string)
}.

(** The arguments of [useGqlToken], both call forms brought to one record;
    [token] is [None] for [null]. *)
Record TokenArgs : Type := mkTokenArgs {
  token : option string;
  tokenClient : option string;
  config : option GivenConfig
}.

Section WithRuntime.

(** [process.server]; [process.client] is its negation. *)
Variable server : bool.

(** [useRuntimeConfig().public['graphql-client'].clients] *)
Abbreviation PublicClients := (gmap string (GqlClient TokenOpts)).

(** [useGqlHeaders]: the calls made on the transport instance, in order,
    then the public runtime config as the call leaves it, or the error
    thrown. *)
Definition useGqlHeaders (clients : PublicClients) (args : HeadersArgs)
    : list SetOptions * Result PublicClients :=
  let first :=
    setGqlState (client args)
      (PHeaders (fmap (M := gmap string) (Some ∘ HStr) <$> headers args)) in
  if default false (respectDefaults args) then
    match headers args with
    | None => ([first], Throw "TypeError: Cannot convert undefined or null to object")
    | Some h =>
        if bool_decide (h = ∅) then
          let key := orDefault (client args) in
          let clientHeaders : option Headers := clients !! key ≫= Types.headers in
          let serverHeaders : Headers :=
            if server then Generate.serverHeadersOf clientHeaders else ∅ in
          let stripped : option Headers :=
            Generate.dropServerOnly <$> clientHeaders in
          let merged : Headers := serverHeaders ∪ default ∅ stripped in
          ([first; setGqlState (client args) (PHeaders (Some (Some <$> merged)))],
           Ok (alter (Generate.withHeaders stripped) key clients))
        else ([first], Ok clients)
    end
  else ([first], Ok clients).

(** The [config] object of [useGqlToken], lines 200 to 205. *)
Definition tokenConfig (clients : PublicClients) (args : TokenArgs)
    : GqlTokenConfig :=
  let clientConfig := clients !! orDefault (tokenClient args) in
  let clientToken := clientConfig ≫= Types.token in
  let fromClient :=
    {| name := if Js.truthy (clientToken ≫= Types.name)
               then clientToken ≫= Types.name else name DEFAULT_AUTH;
       type := match clientToken ≫= Types.type with
               | Some t => Some t
               | None => type DEFAULT_AUTH
               end |} in
  {| name := match config args ≫= givenName with
             | Some written => written
             | None => name fromClient
             end;
     type := match config args ≫= givenType with
             | Some written => written
             | None => type fromClient
             end |}.

(** [!token ? undefined : `${config.type} ${token}`.trim()] *)
Definition tokenHeader (cfg : GqlTokenConfig) (tok : option string)
    : option HeaderValue :=
  if negb (Js.truthy tok) then None
  else Some (HStr (Js.trim (Js.render (type cfg) +:+ " " +:+ Js.render tok))).

(** [useGqlToken]: its one call on the transport instance. *)
Definition useGqlToken (clients : PublicClients) (args : TokenArgs) : SetOptions :=
  let cfg := tokenConfig clients args in
  setGqlState (tokenClient args)
    (PHeaders (Some {[ Js.render (name cfg) := tokenHeader cfg (token args) ]})).

(** [interface GqlCors] *)
Record GqlCors : Type := mkGqlCors {
  mode : option string;
  credentials : option string;
  corsClient : option string
}.

(** [useGqlCors]: its one call on the transport instance. *)
Definition useGqlCors (cors : GqlCors) : SetOptions :=
  setGqlState (corsClient cors) (PCors (mode cors) (credentials cors)).

End WithRuntime.

(** *** The shared error slot ([useGql], [useGqlError]) *)

Section WithHandlers.

(** The user's [OnGqlError] callbacks, the values of [GraphQLError] and of
    [GqlOperation], and the helper of the transport package. *)
Variable Callback : Type.
Variable Json : Type.
Variable Operation : Type.
Variable extractOperation : string → Operation.

(** [type GqlError] *)
Record GqlError : Type := mkGqlError {
  errClient : string;
  status : option Z;
  operation : Operation;
  gqlErrors : list Json
}.

(** What [state.value.onError] holds once [useGqlError] has run: the user's
    callback, or the console logger of the server side. *)
Inductive OnError : Type :=
| UserCallback (f : Callback)
| ConsoleError.

(** One call of a handler with an error. *)
Record Delivery : Type := mkDelivery {
  handler : OnError;
  delivered : GqlError
}.

(** [useState('_gqlErrors')] together with [state.value.onError]. *)
Record ErrorState : Type := mkErrorState {
  errState : option GqlError;
  onError : option OnError
}.

(** The parts of a failing response the middleware reads: [response.status],
    [response._data.errors] when it is an array, [response._data], and the
    [query] of the parsed request body, for a request whose body is JSON
    text. *)
Record Failure : Type := mkFailure {
  responseStatus : option Z;
  dataErrors : option (list Json);
  data : Json;
  query : option string
}.

(** The value assigned to [errState.value], lines 246 to 251, for the client
    [handle] was called with. *)
Definition captured (handleClient : option string) (f : Failure) : GqlError :=
  {| errClient := orDefault handleClient;
     status := responseStatus f;
     operation := extractOperation (default "" (Js.or (query f) (Some "")));
     gqlErrors := match dataErrors f with
                  | Some errs => errs
                  | None => [data f]
                  end |}.

(** [onResponseError], lines 245 to 256. *)
Definition onResponseError (handleClient : option string) (f : Failure)
    (st : ErrorState) : ErrorState * list Delivery :=
  let err := captured handleClient f in
  ({| errState := Some err; onError := onError st |},
   match onError st with
   | Some h => [{| handler := h; delivered := err |}]
   | None => []
   end).

(** [useGqlError(onError)], lines 277 to 288; [production] is
    [process.env.NODE_ENV === 'production']. *)
Definition useGqlError (isClient production : bool) (cb : Callback)
    (st : ErrorState) : ErrorState * list Delivery :=
  ({| errState := errState st;
      onError := if isClient then Some (UserCallback cb)
                 else if production then None else Some ConsoleError |},
   match errState st with
   | None => []
   | Some e => [{| handler := UserCallback cb; delivered := e |}]
   end).

(** What happens to the slot over time. *)
Inductive Event : Type :=
| Fails (handleClient : option string) (f : Failure)
| Registers (isClient production : bool) (cb : Callback).

Definition step (ev : Event) (st : ErrorState) : ErrorState * list Delivery :=
  match ev with
  | Fails c f => onResponseError c f st
  | Registers isClient production cb => useGqlError isClient production cb st
  end.

(** The state after a sequence of events and the deliveries made, in order. *)
Fixpoint run (evs : list Event) (st : ErrorState) : ErrorState * list Delivery :=
  match evs with
  | [] => (st, [])
  | ev :: rest =>
      let '(st1, ds1) := step ev st in
      let '(st2, ds2) := run rest st1 in
      (st2, ds1 ++ ds2)
  end.

End WithHandlers.

Arguments mkGqlError {Json Operation}.
Arguments errClient {Json Operation}.
Arguments status {Json Operation}.
Arguments operation {Json Operation}.
Arguments gqlErrors {Json Operation}.
Arguments UserCallback {Callback}.
Arguments ConsoleError {Callback}.
Arguments mkDelivery {Callback Json Operation}.
Arguments handler {Callback Json Operation}.
Arguments delivered {Callback Json Operation}.
Arguments mkErrorState {Callback Json Operation}.
Arguments errState {Callback Json Operation}.
Arguments onError {Callback Json Operation}.
Arguments mkFailure {Json}.
Arguments responseStatus {Json}.
Arguments dataErrors {Json}.
Arguments data {Json}.
Arguments query {Json}.
Arguments captured {Json Operation}.
Arguments onResponseError {Callback Json Operation}.
Arguments useGqlError {Callback Json Operation}.
Arguments Fails {Callback Json}.
Arguments Registers {Callback Json}.
Arguments step {Callback Json Operation}.
Arguments run {Callback Json Operation}.

(** *** Dispatch ([useAsyncGql] and [handle]) *)

Section WithInstances.

(** The transport instances of [state.value]. *)
Variable Instance : Type.

(** [Object.keys(GqlOperations).find(k => GqlOperations[k].includes(operation))
    ?? 'default'] *)
Definition ownerOf (GqlOperations : list (string * list string))
    (operation : string) : string :=
  default "default"
    (fst <$> List.find (λ kv, bool_decide (operation ∈ kv.2)) GqlOperations).

(** [const { instance } = state.value?.[client || 'default']] *)
Definition handle (state : gmap string Instance) (client : option string)
    : Result Instance :=
  match state !! orDefault client with
  | Some i => Ok i
  | None => Throw "TypeError: Cannot destructure property 'instance'"
  end.

(** The instance [useAsyncGql] runs [operation] on:
    [GqlInstance().handle(client)], where [GqlInstance] and [GqlOperations]
    come from the generated [#build/gql]; [GqlInstance()] is taken to return
    what [useGql()] returns, and [GqlOperations] is an argument. *)
Definition dispatch (GqlOperations : list (string * list string))
    (state : gmap string Instance) (operation : string) : Result Instance :=
  handle state (Some (ownerOf GqlOperations operation)).

End WithInstances.

Arguments handle {Instance} state client.
Arguments dispatch {Instance} GqlOperations state operation.

End Composables.


(** ** Sample data *)

(** [stitchSchemas: { prefixFields: true }] with the defaults filled in. *)
Definition prefixFieldsOn : Stitch.StitchOptions :=
  {| Stitch.mergeTypes := Some true; Stitch.prefixTypes := None;
     Stitch.prefixFields := Some true |}.

(** A schema with the one query [field]. *)
Definition sampleSchema (field : string) : Stitch.GraphQLSchema :=
  {| Stitch.typeNames := ["Query"];
     Stitch.rootFields := [(Stitch.Query, field)] |}.

(** Two schema files on disk: a shop with the query [items] and a blog with
    the query [posts]. *)
Definition sampleLoader (v : Stitch.SchemaEntry) : option Stitch.GraphQLSchema :=
  match v with
  | Stitch.EStr (Some file) =>
      if String.eqb file "shop.graphql" then Some (sampleSchema "items")
      else if String.eqb file "blog.graphql" then Some (sampleSchema "posts")
      else None
  | _ => None
  end.

(** Two schema files on disk, with the queries [b_c] and [c]. *)
Definition collidingLoader (v : Stitch.SchemaEntry) : option Stitch.GraphQLSchema :=
  match v with
  | Stitch.EStr (Some file) =>
      if String.eqb file "first.graphql" then Some (sampleSchema "b_c")
      else if String.eqb file "second.graphql" then Some (sampleSchema "c")
      else None
  | _ => None
  end.

(** [{ 'X-Api': '1', serverOnly: { 'X-Secret': 's3cr3t' } }] *)
Definition secretHeaders : Headers :=
  {[ "X-Api" := HStr "1"; "serverOnly" := HObj {[ "X-Secret" := "s3cr3t" ]} ]}.

(** A user's entry with a server-only header, with or without a schema
    file. *)
Definition secretClient (schemaFile : option string) : ClientCfg :=
  CObj {| host := Some "https://api.a/graphql"; clientHost := None;
          schema := schemaFile; token := None; retainToken := None;
          proxyCookies := None; headers := Some secretHeaders |}.

(** The same client as [setup] resolves it. *)
Definition secretResolved (schemaFile : option string) : GqlClient TokenOpts :=
  {| host := Some "https://api.a/graphql"; clientHost := None;
     schema := schemaFile;
     token := Some {| name := Some "Authorization"; value := None;
                      type := Some "Bearer" |};
     retainToken := None; proxyCookies := Some true;
     headers := Some secretHeaders |}.

(** The user's entry [{}]. *)
Definition noClient : GqlClient TokenCfg :=
  {| host := None; clientHost := None; schema := None; token := None;
     retainToken := None; proxyCookies := None; headers := None |}.

(** An environment with [GQL_BLOG_HOST] set. *)
Definition blogEnv : gmap string string :=
  {[ "GQL_BLOG_HOST" := "https://env.b/graphql" ]}.

(** The user's entry [{ host: 'https://api.b/graphql', token: 'abc' }]. *)
Definition blogClient : ClientCfg :=
  CObj {| host := Some "https://api.b/graphql"; clientHost := None;
          schema := None; token := Some (TokStr "abc"); retainToken := None;
          proxyCookies := None; headers := None |}.

(** A resolved client with the token [abc]. *)
Definition tokenClientCfg : GqlClient TokenOpts :=
  {| host := Some "https://api.a/graphql"; clientHost := None; schema := None;
     token := Some {| name := Some "Authorization"; value := Some "abc";
                      type := Some "Bearer" |};
     retainToken := None; proxyCookies := Some true; headers := None |}.

(** A source directory with an empty file, a schema file and a file of
    queries. *)
Definition sampleSize (f : string) : N :=
  if String.eqb f "src/empty.gql" then 0%N else 42%N.

Definition sampleFiles (path : string) : list string :=
  ["src/empty.gql"; "src/foo.schema.graphql"; "src/queries.graphql"].

(** A schema that declares nothing. *)
Definition noSchema : Stitch.GraphQLSchema :=
  {| Stitch.typeNames := []; Stitch.rootFields := [] |}.

(** An environment with [GQL_HOST] and [GQL_TOKEN] set. *)
Definition hostEnv : gmap string string :=
  {[ "GQL_HOST" := "https://api.a/graphql"; "GQL_TOKEN" := "s3cr3t" ]}.

(** The user's entry [{ host: 'https://api.a/graphql', schema: 'schema.graphql' }]. *)
Definition schemaClient : GqlClient TokenCfg :=
  {| host := Some "https://api.a/graphql"; clientHost := None;
     schema := Some "schema.graphql"; token := None; retainToken := None;
     proxyCookies := None; headers := None |}.

(** An environment that sets the host and the token of the client [shop]. *)
Definition shopEnv : gmap string string :=
  {[ "GQL_SHOP_HOST" := "https://env.shop/graphql";
     "GQL_SHOP_TOKEN" := "fromEnv" ]}.

(** The user's entry [{ host: 'https://api.shop/graphql', clientHost:
    'https://client.shop/graphql', token: { name: 'X-Shop-Token', value:
    'fromUser', type: 'Token' } }]. *)
Definition shopClient : GqlClient TokenCfg :=
  {| host := Some "https://api.shop/graphql";
     clientHost := Some "https://client.shop/graphql";
     schema := None;
     token := Some (TokObj {| name := Some "X-Shop-Token";
                              value := Some "fromUser";
                              type := Some "Token" |});
     retainToken := None; proxyCookies := None; headers := None |}.



(** The text of [users.gql] and of [more.gql]. *)
Definition usersText : string := "query GetUser { user } query GetPost { post }".
Definition moreText : string := "query GetUser { user { id } } query GetTeam { team }".

(** A parser that knows the two documents [users.gql] and [more.gql]; both
    define [GetUser]. *)
Definition shadowParser (d : string) : Result (list Documents.DefinitionNode) :=
  if String.eqb d "users.gql"
  then Ok [ {| Documents.defName := Some "GetUser";
               Documents.loc := Some (usersText, 0, 22) |};
            {| Documents.defName := Some "GetPost";
               Documents.loc := Some (usersText, 23, 45) |} ]
  else if String.eqb d "more.gql"
  then Ok [ {| Documents.defName := Some "GetUser";
               Documents.loc := Some (moreText, 0, 29) |};
            {| Documents.defName := Some "GetTeam";
               Documents.loc := Some (moreText, 30, 52) |} ]
  else Throw "Syntax Error".


(** * Properties *)

(** ** JavaScript strings *)

Lemma truthy_Some (s : string) : Js.truthy (Some s) = true ↔ s ≠ "".
Proof.
  unfold Js.truthy. destruct (String.eqb_spec s ""); simpl; split; congruence.
Qed.

Lemma truthy_inv (o : option string) :
  Js.truthy o = true → ∃ s, o = Some s ∧ s ≠ "".
Proof.
  destruct o as [s|]; simpl; [|discriminate].
  intros H. exists s. split; [done|]. by apply truthy_Some.
Qed.

Lemma or_truthy_l (a b : option string) : Js.truthy a = true → Js.or a b = a.
Proof. unfold Js.or. by intros ->. Qed.

Lemma or_falsy_l (a b : option string) : Js.truthy a = false → Js.or a b = b.
Proof. unfold Js.or. by intros ->. Qed.

Lemma prefix_app (k q : string) : String.prefix k (k +:+ q) = true.
Proof.
  induction k as [|c k IH].
  - change ("" +:+ q) with q. by destruct q.
  - change (String c k +:+ q) with (String c (k +:+ q)). simpl.
    destruct (ascii_dec c c); [exact IH|congruence].
Qed.

Lemma includes_here (s sub : string) : String.prefix sub s = true → Js.includes s sub = true.
Proof. intros H. destruct s; simpl in *; rewrite H; done. Qed.

Lemma includes_app (p k q : string) : Js.includes (p +:+ k +:+ q) k = true.
Proof.
  induction p as [|c p IH].
  - change ("" +:+ k +:+ q) with (k +:+ q). apply includes_here, prefix_app.
  - change (String c p +:+ k +:+ q) with (String c (p +:+ k +:+ q)).
    simpl. rewrite IH. apply orb_true_r.
Qed.

(** ** Configuration resolution *)

Section SetupFacts.

Context (env : gmap string string) (pubHost pubClientHost : option string).
Context (resolve : string → string) (existsSync : string → bool).

Local Abbreviation resolveClient := (Setup.resolveClient env resolve existsSync).
Local Abbreviation resolveClients := (Setup.resolveClients env resolve existsSync).
Local Abbreviation setup := (Setup.setup env pubHost pubClientHost resolve existsSync).
Local Abbreviation hostOf := (Setup.hostOf env).

Lemma resolveClient_throw k v :
  Js.truthy (hostOf k v) = false → resolveClient k v = Throw (Setup.missingHost k).
Proof. intros H. unfold Setup.resolveClient. by rewrite H. Qed.

Lemma resolveClient_ok k v :
  Js.truthy (hostOf k v) = true →
  ∃ out, resolveClient k v = Ok out
         ∧ host (Setup.conf out) = hostOf k v
         ∧ host (Setup.publicConf out) = hostOf k v.
Proof.
  intros H. unfold Setup.resolveClient. rewrite H. simpl.
  eexists. split; [reflexivity|]. simpl. split; [done|].
  by destruct (_ && _).
Qed.

Lemma resolveClient_inv k v out :
  resolveClient k v = Ok out →
  Js.truthy (hostOf k v) = true
  ∧ host (Setup.conf out) = hostOf k v
  ∧ host (Setup.publicConf out) = hostOf k v.
Proof.
  intros Hout. destruct (Js.truthy (hostOf k v)) eqn:H.
  - destruct (resolveClient_ok k v H) as (out' & Hout' & ? & ?).
    rewrite Hout in Hout'. by simplify_eq.
  - rewrite (resolveClient_throw k v H) in Hout. discriminate.
Qed.

Lemma resolveClients_ok entries st st' :
  resolveClients entries st = Ok st' →
  (∀ k c, (k, c) ∈ Setup.config_clients st' →
     (k, c) ∈ Setup.config_clients st
     ∨ ∃ v out, (k, v) ∈ entries ∧ resolveClient k v = Ok out ∧ c = Setup.conf out)
  ∧ (∀ k c, Setup.public_clients st' !! k = Some c →
       Setup.public_clients st !! k = Some c
       ∨ ∃ v out, (k, v) ∈ entries ∧ resolveClient k v = Ok out
                  ∧ c = Setup.publicConf out)
  ∧ (∀ k v, (k, v) ∈ entries →
       ∃ out, resolveClient k v = Ok out
              ∧ (k, Setup.conf out) ∈ Setup.config_clients st').
Proof.
  revert st. induction entries as [|[k0 v0] rest IH]; intros st Hrun.
  - simpl in Hrun. simplify_eq. split_and!; [by left|by left|].
    intros k v Hin. by apply elem_of_nil in Hin.
  - simpl in Hrun. destruct (resolveClient k0 v0) as [out0|msg] eqn:H0;
      [|discriminate].
    change (resolveClients rest (Setup.record k0 out0 st) = Ok st') in Hrun.
    destruct (IH _ Hrun) as (Hc & Hp & He). split_and!.
    + intros k c Hin. destruct (Hc k c Hin) as [Hold|(v & out & ? & ? & ?)].
      * simpl in Hold. apply elem_of_app in Hold as [?|Hnew]; [by left|].
        apply list_elem_of_singleton in Hnew. simplify_eq.
        right. exists v0, out0. split_and!; [left|done|done].
      * right. exists v, out. split_and!; [by right|done|done].
    + intros k c Hin. destruct (Hp k c Hin) as [Hold|(v & out & ? & ? & ?)].
      * simpl in Hold. destruct (decide (k0 = k)) as [->|Hne].
        -- rewrite lookup_insert_eq in Hold. simplify_eq.
           right. exists v0, out0. split_and!; [left|done|done].
        -- rewrite lookup_insert_ne in Hold by done. by left.
      * right. exists v, out. split_and!; [by right|done|done].
    + intros k v Hin. apply elem_of_cons in Hin as [Heq|Hin].
      * simplify_eq. exists out0. split; [done|].
        assert (Hmono : ∀ es s s', resolveClients es s = Ok s' →
                  ∀ x, x ∈ Setup.config_clients s → x ∈ Setup.config_clients s').
        { clear. induction es as [|[k1 v1] es IHes]; intros s s' Hr x Hx.
          - simpl in Hr. by simplify_eq.
          - simpl in Hr. destruct (resolveClient k1 v1) as [o1|] eqn:?;
              [|discriminate].
            eapply IHes; [exact Hr|]. simpl. apply elem_of_app. by left. }
        eapply Hmono; [exact Hrun|]. simpl. apply elem_of_app. right.
        apply list_elem_of_singleton. done.
      * by apply He.
Qed.

Lemma resolveClients_first_missing pre k v post st :
  Forall (λ kv, Js.truthy (hostOf kv.1 kv.2) = true) pre →
  Js.truthy (hostOf k v) = false →
  resolveClients (pre ++ (k, v) :: post) st = Throw (Setup.missingHost k).
Proof.
  intros Hpre Hk. revert st. induction Hpre as [|[k0 v0] pre Hok _ IH]; intros st.
  - simpl. by rewrite (resolveClient_throw k v Hk).
  - simpl in Hok. destruct (resolveClient_ok k0 v0 Hok) as (out & Hout & _).
    simpl. rewrite Hout. apply IH.
Qed.

Lemma resolveClients_some_missing entries st :
  Exists (λ kv, Js.truthy (hostOf kv.1 kv.2) = false) entries →
  ∃ k v, (k, v) ∈ entries ∧ Js.truthy (hostOf k v) = false
         ∧ resolveClients entries st = Throw (Setup.missingHost k).
Proof.
  revert st. induction entries as [|[k0 v0] rest IH]; intros st Hex.
  - by apply Exists_nil in Hex.
  - destruct (Js.truthy (hostOf k0 v0)) eqn:H0.
    + apply Exists_cons in Hex as [Hbad|Hex]; [simpl in Hbad; congruence|].
      destruct (resolveClient_ok k0 v0 H0) as (out & Hout & _).
      destruct (IH (Setup.record k0 out st) Hex) as (k & v & Hin & Hk & Hrun).
      exists k, v. split_and!; [by right|done|]. simpl. by rewrite Hout.
    + exists k0, v0. split_and!; [left|done|].
      simpl. by rewrite (resolveClient_throw k0 v0 H0).
Qed.

Lemma setup_nonempty clients :
  clients ≠ [] → setup clients = resolveClients clients Setup.initial.
Proof. intros Hne. unfold Setup.setup. by destruct clients. Qed.

Lemma setup_implicit_host :
  Js.truthy (Js.or (env !! "GQL_HOST") pubHost) = true →
  ∃ v, Setup.implicitClients env pubHost pubClientHost = Ok [("default", v)]
       ∧ hostOf "default" v = Js.or (env !! "GQL_HOST") pubHost.
Proof.
  intros H. unfold Setup.implicitClients. rewrite H. simpl.
  eexists. split; [reflexivity|].
  unfold Setup.hostOf, Setup.runtimeVar.
  change (Setup.envName "default" "HOST") with "GQL_HOST".
  destruct (truthy_inv _ H) as (h & Hh & Hne).
  destruct (Js.truthy (env !! "GQL_HOST")) eqn:He.
  - by rewrite !(or_truthy_l _ _ He).
  - rewrite (or_falsy_l _ _ He). destruct (negb _); simpl; by rewrite Hh.
Qed.

(** C1. Resolution fails fast on a missing endpoint.  The turn of the loop
    for a client [k] for which neither the client's environment variable nor
    the user's entry gives a host throws a message that names [k]; the loop
    stops there, so [setup] throws the message naming [k] once the clients
    before [k] have a host, and whenever some client lacks a host [setup]
    throws the message of such a client.  With no client declared, [setup] resolves
    the single client [default] from [GQL_HOST], and throws a message naming
    [GQL_HOST] when that is not set either.  Every client object [setup]
    writes, into [config.clients] and into the public runtime config, has a
    non-empty host. *)
Theorem setup_fails_fast_on_missing_host (clients : list (string * ClientCfg)) :
  (∀ k v,
     Js.truthy (hostOf k v) = false →
     resolveClient k v = Throw (Setup.missingHost k)
     ∧ Js.includes (Setup.missingHost k) k = true)
  ∧ (∀ pre k v post,
     clients = pre ++ (k, v) :: post →
     Forall (λ kv, Js.truthy (hostOf kv.1 kv.2) = true) pre →
     Js.truthy (hostOf k v) = false →
     setup clients = Throw (Setup.missingHost k))
  ∧ (∀ k v,
       (k, v) ∈ clients → Js.truthy (hostOf k v) = false →
       ∃ k' v', (k', v') ∈ clients ∧ Js.truthy (hostOf k' v') = false
                ∧ setup clients = Throw (Setup.missingHost k'))
  ∧ (clients = [] →
       if Js.truthy (Js.or (env !! "GQL_HOST") pubHost)
       then ∃ st c, setup clients = Ok st
                    ∧ Setup.config_clients st = [("default", c)]
                    ∧ host c = Js.or (env !! "GQL_HOST") pubHost
       else setup clients = Throw Setup.hostNotSet
            ∧ Js.includes Setup.hostNotSet "GQL_HOST" = true)
  ∧ (∀ st, setup clients = Ok st →
       (∀ k c, (k, c) ∈ Setup.config_clients st →
               ∃ h, host c = Some h ∧ h ≠ "")
       ∧ (∀ k c, Setup.public_clients st !! k = Some c →
                 ∃ h, host c = Some h ∧ h ≠ "")).
Proof.
  split_and!.
  - intros k v Hk. split; [by apply resolveClient_throw|apply includes_app].
  - intros pre k v post -> Hpre Hk.
    rewrite setup_nonempty by (by destruct pre).
    by apply resolveClients_first_missing.
  - intros k v Hin Hk.
    rewrite setup_nonempty by (intros ->; by apply elem_of_nil in Hin).
    apply resolveClients_some_missing, Exists_exists.
    exists (k, v). by split.
  - intros ->. destruct (Js.truthy (Js.or (env !! "GQL_HOST") pubHost)) eqn:H.
    + destruct (setup_implicit_host H) as (v & Himp & Hhost).
      unfold Setup.setup. simpl. rewrite Himp. simpl.
      assert (Hv : Js.truthy (hostOf "default" v) = true) by by rewrite Hhost.
      destruct (resolveClient_ok "default" v Hv) as (out & Hout & Hconf & _).
      rewrite Hout. simpl. eexists _, _. split_and!; [reflexivity..|].
      by rewrite Hconf.
    + split; [|reflexivity].
      unfold Setup.setup, Setup.implicitClients. simpl. by rewrite H.
  - intros st Hst.
    assert (∃ entries, resolveClients entries Setup.initial = Ok st)
      as [entries Hrun].
    { unfold Setup.setup in Hst.
      destruct (if (length clients =? 0)%nat then _ else _) as [entries|];
        [|discriminate].
      by exists entries. }
    destruct (resolveClients_ok _ _ _ Hrun) as (Hc & Hp & _). split.
    + intros k c Hin. destruct (Hc k c Hin) as [Hold|(v & out & _ & Hout & ->)].
      { by apply elem_of_nil in Hold. }
      destruct (resolveClient_inv _ _ _ Hout) as (Ht & -> & _).
      by apply truthy_inv.
    + intros k c Hin. destruct (Hp k c Hin) as [Hold|(v & out & _ & Hout & ->)].
      { simpl in Hold. by rewrite lookup_empty in Hold. }
      destruct (resolveClient_inv _ _ _ Hout) as (Ht & _ & ->).
      by apply truthy_inv.
Qed.

Lemma resolveClient_token k v out :
  resolveClient k v = Ok out →
  ∃ tok, token (Setup.conf out) = Some tok
    ∧ clientHost (Setup.conf out)
      = (if Js.truthy (Setup.clientHostOf env k v) then Setup.clientHostOf env k v
         else Setup.userClientHost v)
    ∧ value tok = (if Js.truthy (Setup.tokenOf env k v)
                   then Setup.tokenOf env k v else None)
    ∧ name tok = Setup.tokenNameOf env k v
    ∧ type tok = Some (Setup.tokenTypeOf v).
Proof.
  unfold Setup.resolveClient. destruct (negb _); [discriminate|].
  intros [= <-]. simpl. eexists. split; [reflexivity|]. simpl. split_and!; try done.
  assert (Js.truthy (Setup.tokenNameOf env k v) = true) as ->; [|done].
  unfold Setup.tokenNameOf, Js.or at 1.
  by destruct (Js.truthy (Js.or _ _)) eqn:H.
Qed.

(** C2. Precedence.  For a declared client [k] with entry [v] that [setup]
    resolves, the variable read for [k] is [GQL_<WHAT>] when [k] is
    [default] and [GQL_<K>_<WHAT>] with the upper-cased name otherwise.  In
    the resolved client the host, the client-side host, the token and the
    token name are the value of that variable when it is set (non-empty).
    When it is not, a string entry gives the host and nothing else, and an
    object entry gives its [host], its [clientHost], the [value] of its
    token object or its token string, and the [name] of its token object;
    the token name falls back to [Authorization], and the token type, which
    has no variable, is the [type] of the token object or [Bearer]. *)
Theorem precedence_env_user_default
    (clients : list (string * ClientCfg)) (st : Setup.Resolved)
    (k : string) (v : ClientCfg) :
  setup clients = Ok st → (k, v) ∈ clients →
  let var what :=
    env !! (if String.eqb k "default" then "GQL_" +:+ what
            else "GQL_" +:+ Js.toUpperCase k +:+ "_" +:+ what) in
  ∃ c tok, (k, c) ∈ Setup.config_clients st ∧ token c = Some tok
    ∧ (Js.truthy (var "HOST") = true → host c = var "HOST")
    ∧ (Js.truthy (var "CLIENT_HOST") = true → clientHost c = var "CLIENT_HOST")
    ∧ (Js.truthy (var "TOKEN") = true → value tok = var "TOKEN")
    ∧ (Js.truthy (var "TOKEN_NAME") = true → name tok = var "TOKEN_NAME")
    ∧ (∀ s, v = CStr s →
         (Js.truthy (var "HOST") = false → host c = Some s)
         ∧ (Js.truthy (var "CLIENT_HOST") = false → clientHost c = None)
         ∧ (Js.truthy (var "TOKEN") = false → value tok = None)
         ∧ (Js.truthy (var "TOKEN_NAME") = false →
            name tok = Some "Authorization")
         ∧ type tok = Some "Bearer")
    ∧ (∀ c0, v = CObj c0 →
         (Js.truthy (var "HOST") = false → host c = host c0)
         ∧ (Js.truthy (var "CLIENT_HOST") = false →
            clientHost c = clientHost c0)
         ∧ (Js.truthy (var "TOKEN") = false →
            value tok = match token c0 with
                        | Some (TokObj t) =>
                            if Js.truthy (value t) then value t else None
                        | Some (TokStr s) =>
                            if Js.truthy (Some s) then Some s else None
                        | None => None
                        end)
         ∧ (Js.truthy (var "TOKEN_NAME") = false →
            name tok = match token c0 with
                       | Some (TokObj t) =>
                           if Js.truthy (name t) then name t
                           else Some "Authorization"
                       | _ => Some "Authorization"
                       end)
         ∧ type tok = Some match token c0 with
                           | Some (TokObj t) => default "Bearer" (type t)
                           | _ => "Bearer"
                           end).
Proof.
  intros Hst Hin var.
  rewrite setup_nonempty in Hst by (intros ->; by apply elem_of_nil in Hin).
  destruct (resolveClients_ok _ _ _ Hst) as (_ & _ & He).
  destruct (He k v Hin) as (out & Hout & Hmem).
  destruct (resolveClient_inv _ _ _ Hout) as (_ & Hhost & _).
  destruct (resolveClient_token _ _ _ Hout) as (tok & Htok & Hch & Hval & Hname & Hty).
  assert (Hvar : ∀ what, Setup.runtimeVar env k what = var what) by done.
  unfold Setup.hostOf in Hhost. unfold Setup.clientHostOf in Hch.
  unfold Setup.tokenOf in Hval. unfold Setup.tokenNameOf in Hname.
  unfold Setup.tokenTypeOf in Hty. rewrite Hvar in Hhost, Hch, Hval, Hname.
  exists (Setup.conf out), tok. split_and!; try done.
  - intros H. by rewrite Hhost, (or_truthy_l _ _ H).
  - intros H. by rewrite Hch, (or_truthy_l _ _ H), H.
  - intros H. by rewrite Hval, (or_truthy_l _ _ H), H.
  - intros H. rewrite Hname, (or_truthy_l _ _ H). by apply or_truthy_l.
  - intros s ->. simpl in *. split_and!.
    + intros H. by rewrite Hhost, (or_falsy_l _ _ H).
    + intros H. by rewrite Hch, (or_falsy_l _ _ H).
    + intros H. by rewrite Hval, (or_falsy_l _ _ H).
    + intros H. by rewrite Hname, (or_falsy_l _ _ H).
    + done.
  - intros c0 ->. simpl in *. split_and!.
    + intros H. by rewrite Hhost, (or_falsy_l _ _ H).
    + intros H. rewrite Hch, (or_falsy_l _ _ H).
      by destruct (Js.truthy (clientHost c0)).
    + intros H. rewrite Hval, (or_falsy_l _ _ H).
      destruct (token c0) as [[s|t]|]; [| |done].
      * unfold Js.or, Js.truthy.
        destruct (String.eqb s "") eqn:Hs; simpl; by rewrite ?Hs.
      * unfold Js.or. destruct (Js.truthy (value t)) eqn:Hs; by rewrite ?Hs.
    + intros H. rewrite Hname, (or_falsy_l _ _ H).
      destruct (token c0) as [[s|t]|]; [done| |done].
      unfold Js.or. by destruct (Js.truthy (name t)).
    + rewrite Hty. by destruct (token c0) as [[s|t]|].
Qed.

End SetupFacts.

(** The second of two clients has no host: [setup] throws and names it. *)
Lemma setup_fails_fast_witness :
  Setup.setup ∅ None None id (λ _, true)
    [("default", CStr "https://api.a/graphql"); ("blog", CObj noClient)]
  = Throw "GraphQL client (blog) is missing it's host.".
Proof.
  refine (proj1 (proj2 (setup_fails_fast_on_missing_host ∅ None None id (λ _, true) _))
            [("default", CStr "https://api.a/graphql")] "blog" (CObj noClient) []
            eq_refl _ eq_refl).
  repeat constructor.
Defined.

(** [GQL_SHOP_HOST] and [GQL_SHOP_TOKEN] are set, and the user's entry has
    a host, a client-side host and a token object: the variables win for the
    host and the token, the entry gives the client-side host and the name and
    the type of the token. *)
Lemma precedence_env_user_default_witness :
  ∃ st c tok,
    Setup.setup shopEnv None None id (λ _, true)
      [("default", CStr "https://api.a/graphql"); ("shop", CObj shopClient)] = Ok st
    ∧ ("shop", c) ∈ Setup.config_clients st ∧ token c = Some tok
    ∧ host c = Some "https://env.shop/graphql"
    ∧ clientHost c = Some "https://client.shop/graphql"
    ∧ value tok = Some "fromEnv"
    ∧ name tok = Some "X-Shop-Token" ∧ type tok = Some "Token".
Proof.
  eexists.
  destruct (precedence_env_user_default shopEnv None None id (λ _, true)
              [("default", CStr "https://api.a/graphql"); ("shop", CObj shopClient)]
              _ "shop" (CObj shopClient) eq_refl)
    as (c & tok & Hin & Htok & Hh & _ & Hv & _ & _ & Hobj).
  { apply elem_of_cons. right. apply elem_of_cons. by left. }
  destruct (Hobj shopClient eq_refl) as (_ & Hch & _ & Hn & Hty).
  exists c, tok. split; [reflexivity|]. split_and!; try done.
  - by apply Hh.
  - by apply Hch.
  - by apply Hv.
  - by apply Hn.
Defined.

(** ** Server-only headers *)

Lemma resolveClient_headers env resolve existsSync k v out :
  Setup.resolveClient env resolve existsSync k v = Ok out →
  headers (Setup.conf out) = Setup.spread headers v
  ∧ headers (Setup.publicConf out) = Setup.spread headers v.
Proof.
  unfold Setup.resolveClient. destruct (negb _); [discriminate|].
  intros [= <-]. simpl. split; [done|]. by destruct (_ && _).
Qed.

Lemma serverHeadersOf_object (h : Headers) (m : gmap string string) :
  h !! "serverOnly" = Some (HObj m) →
  Generate.serverHeadersOf (Some h) = HStr <$> m
  ∧ Generate.dropServerOnly h = delete "serverOnly" h.
Proof.
  intros Hm. unfold Generate.serverHeadersOf, Generate.dropServerOnly. simpl.
  by rewrite Hm.
Qed.

Lemma prepareClient_introspected (c : GqlClient TokenOpts) (h : Headers)
    (m : gmap string string) :
  Js.truthy (schema c) = false → headers c = Some h →
  h !! "serverOnly" = Some (HObj m) →
  Generate.prepareClient c
  = (Generate.SUrl (Js.render (host c))
       (Generate.withToken c (Generate.authToken c)
          ((HStr <$> m) ∪ delete "serverOnly" h)),
     Generate.withHeaders (Some (delete "serverOnly" h)) c).
Proof.
  intros Hs Hh Hm. unfold Generate.prepareClient. rewrite Hs, Hh.
  rewrite bool_decide_eq_true_2 by done. rewrite andb_false_r.
  destruct (serverHeadersOf_object h m Hm) as [Hsrv Hdrop].
  unfold Generate.introspectionHeaders, Generate.strip. rewrite Hh, Hsrv. simpl.
  by rewrite Hdrop.
Qed.

Lemma useGqlHeaders_defaults (server : bool)
    (clients : gmap string (GqlClient TokenOpts))
    (args : Composables.HeadersArgs) (c : GqlClient TokenOpts)
    (h : Headers) (m : gmap string string) :
  clients !! Composables.orDefault (Composables.client args) = Some c →
  headers c = Some h → h !! "serverOnly" = Some (HObj m) →
  Composables.respectDefaults args = Some true →
  Composables.headers args = Some ∅ →
  Composables.useGqlHeaders server clients args
  = ([Composables.setGqlState (Composables.client args)
        (Composables.PHeaders (Some ∅));
      Composables.setGqlState (Composables.client args)
        (Composables.PHeaders
           (Some (Some <$> ((if server then HStr <$> m else ∅)
                            ∪ delete "serverOnly" h))))],
     Ok (<[Composables.orDefault (Composables.client args)
           := Generate.withHeaders (Some (delete "serverOnly" h)) c]> clients)).
Proof.
  intros Hc Hh Hm Hr Ha. unfold Composables.useGqlHeaders.
  rewrite Hr, Ha, Hc. simpl. rewrite bool_decide_eq_true_2 by done.
  rewrite Hh. destruct (serverHeadersOf_object h m Hm) as [Hsrv Hdrop].
  rewrite Hsrv. simpl. rewrite Hdrop, fmap_empty. do 2 f_equal.
  apply map_eq. intros i. rewrite lookup_alter. case_decide as Hi.
  - subst i. by rewrite lookup_insert_eq, Hc.
  - by rewrite lookup_insert_ne.
Qed.

(** The sample client, as [setup] resolves it with nothing in the
    environment and every schema file there. *)
Lemma secretClient_resolved (schemaFile : option string) :
  Setup.conf <$> Setup.resolveClient ∅ id (λ _, true) "default"
                   (secretClient schemaFile)
  = Ok (secretResolved schemaFile).
Proof. destruct schemaFile as [f|]; [|done]. by destruct f. Qed.

(** C3, as the code has it.  Resolution copies the headers of the user's
    entry, [serverOnly] sub-mapping included, into the client object of the
    public runtime config (and of [config.clients]).  The entries of the
    sub-mapping are merged into outgoing headers in server context only:
    [prepareConfig], for a client it introspects, merges them into the
    introspection headers and deletes the [serverOnly] key from the
    [config.clients] entry; [useGqlHeaders], asked to respect the defaults
    with an empty header set, merges them when [process.server] holds and
    not otherwise, and deletes the [serverOnly] key from the runtime config
    entry it read. *)
Theorem server_only_headers_paths
    (env : gmap string string) (resolve : string → string)
    (existsSync : string → bool) (k : string) (v : ClientCfg)
    (out : Setup.ClientOut) (h : Headers) (m : gmap string string) :
  Setup.resolveClient env resolve existsSync k v = Ok out →
  Setup.spread headers v = Some h →
  h !! "serverOnly" = Some (HObj m) →
  headers (Setup.publicConf out) = Some h
  ∧ headers (Setup.conf out) = Some h
  ∧ (Js.truthy (schema (Setup.conf out)) = false →
     Generate.prepareClient (Setup.conf out)
     = (Generate.SUrl (Js.render (host (Setup.conf out)))
          (Generate.withToken (Setup.conf out)
             (Generate.authToken (Setup.conf out))
             ((HStr <$> m) ∪ delete "serverOnly" h)),
        Generate.withHeaders (Some (delete "serverOnly" h)) (Setup.conf out)))
  ∧ (∀ server clients args,
       clients !! Composables.orDefault (Composables.client args)
         = Some (Setup.publicConf out) →
       Composables.respectDefaults args = Some true →
       Composables.headers args = Some ∅ →
       Composables.useGqlHeaders server clients args
       = ([Composables.setGqlState (Composables.client args)
             (Composables.PHeaders (Some ∅));
           Composables.setGqlState (Composables.client args)
             (Composables.PHeaders
                (Some (Some <$> ((if server then HStr <$> m else ∅)
                                 ∪ delete "serverOnly" h))))],
          Ok (<[Composables.orDefault (Composables.client args)
                := Generate.withHeaders (Some (delete "serverOnly" h))
                     (Setup.publicConf out)]> clients))).
Proof.
  intros Hout Hv Hm.
  destruct (resolveClient_headers _ _ _ _ _ _ Hout) as [Hconf Hpub].
  rewrite Hv in Hconf, Hpub. split_and!; [done|done|..].
  - intros Hs. by apply prepareClient_introspected.
  - intros server clients args Hc Hr Ha.
    by apply useGqlHeaders_defaults.
Qed.

(** A client with a server-only header: it is in the public client object
    that resolution writes. *)
Lemma server_only_headers_paths_witness :
  ∃ out,
    Setup.resolveClient ∅ id (λ _, true) "default" (secretClient None) = Ok out
    ∧ headers (Setup.publicConf out) = Some secretHeaders.
Proof.
  eexists. split; [reflexivity|].
  refine (proj1 (server_only_headers_paths ∅ id (λ _, true) "default"
                   (secretClient None) _ secretHeaders {[ "X-Secret" := "s3cr3t" ]}
                   eq_refl eq_refl _)).
  reflexivity.
Defined.

(** C3 as stated fails: after [setup] the public runtime config of a client
    that declares a server-only header holds that header, and the generation
    pass that follows leaves the clients as they are (the client has a local
    schema, so [prepareConfig] returns before it deletes anything). *)
Lemma server_only_in_public_config :
  ∃ st c h,
    Setup.setup ∅ None None id (λ _, true)
      [("default", secretClient (Some "schema.graphql"))] = Ok st
    ∧ Setup.public_clients st !! "default" = Some c
    ∧ headers c = Some h
    ∧ h !! "serverOnly" = Some (HObj {[ "X-Secret" := "s3cr3t" ]})
    ∧ (Generate.prepareConfig (Setup.config_clients st)).2
      = Setup.config_clients st.
Proof.
  eexists _, _, _. split_and!; [reflexivity..|]. reflexivity.
Qed.

(** ** Reversal and trimming *)

Lemma app_cons_s (c : ascii) (s t : string) : String c s +:+ t = String c (s +:+ t).
Proof. done. Qed.

Lemma app_nil_r_s (s : string) : s +:+ "" = s.
Proof. induction s as [|c s IH]; [done|]. by rewrite app_cons_s, IH. Qed.

Lemma app_assoc_s (s t u : string) : (s +:+ t) +:+ u = s +:+ t +:+ u.
Proof. induction s as [|c s IH]; [done|]. by rewrite !app_cons_s, IH. Qed.

Lemma rev_app_spec (s t : string) : String.rev_app s t = String.rev s +:+ t.
Proof.
  unfold String.rev. revert t. induction s as [|c s IH]; intros t; [done|].
  simpl. rewrite (IH (String c t)), (IH (String c "")).
  by rewrite app_assoc_s.
Qed.

Lemma rev_cons_s (c : ascii) (s : string) :
  String.rev (String c s) = String.rev s +:+ String c "".
Proof. unfold String.rev at 1. simpl. apply rev_app_spec. Qed.

Lemma rev_app_s (s t : string) :
  String.rev (s +:+ t) = String.rev t +:+ String.rev s.
Proof.
  induction s as [|c s IH].
  - change ("" +:+ t) with t. change (String.rev "") with "".
    by rewrite app_nil_r_s.
  - rewrite app_cons_s, !rev_cons_s, IH. apply app_assoc_s.
Qed.

Lemma rev_involutive_s (s : string) : String.rev (String.rev s) = s.
Proof.
  induction s as [|c s IH]; [done|].
  by rewrite rev_cons_s, rev_app_s, IH.
Qed.

Lemma trimStart_clean (s : string) : Js.starts_clean (Js.trimStart s).
Proof.
  induction s as [|c s IH]; [done|]. simpl.
  destruct (Js.is_ws c) eqn:Hc; [exact IH|exact Hc].
Qed.

Lemma trimStart_id (s : string) : Js.starts_clean s → Js.trimStart s = s.
Proof. destruct s as [|c s]; [done|]. simpl. by intros ->. Qed.

Lemma trimStart_keeps_last (s : string) (c : ascii) :
  Js.is_ws c = false →
  ∃ u, Js.trimStart (s +:+ String c "") = u +:+ String c "".
Proof.
  intros Hc. induction s as [|a s [u IH]].
  - exists "". change ("" +:+ String c "") with (String c ""). simpl.
    by rewrite Hc.
  - rewrite app_cons_s. simpl. destruct (Js.is_ws a).
    + by exists u.
    + by exists (String a s).
Qed.

Lemma trim_clean (s : string) : Js.clean (Js.trim s).
Proof.
  unfold Js.clean, Js.trim, Js.trimEnd. split.
  - pose proof (trimStart_clean s) as Hs.
    destruct (Js.trimStart s) as [|c t]; [done|]. simpl in Hs.
    rewrite rev_cons_s.
    destruct (trimStart_keeps_last (String.rev t) c Hs) as [u ->].
    rewrite rev_app_s. by cbn.
  - rewrite rev_involutive_s. apply trimStart_clean.
Qed.

Lemma trim_id (s : string) : Js.clean s → Js.trim s = s.
Proof.
  intros [H1 H2]. unfold Js.trim, Js.trimEnd.
  by rewrite (trimStart_id s H1), (trimStart_id _ H2), rev_involutive_s.
Qed.

Lemma starts_clean_app (s t : string) :
  s ≠ "" → Js.starts_clean s → Js.starts_clean (s +:+ t).
Proof. by destruct s. Qed.

(** A scheme and a token without white space at their ends, the scheme not
    empty, are joined by one space and left as they are. *)
Lemma trim_joined (ty tok : string) :
  ty ≠ "" → tok ≠ "" → Js.clean ty → Js.clean tok →
  Js.trim (ty +:+ " " +:+ tok) = ty +:+ " " +:+ tok.
Proof.
  intros Hty Htok [Hty1 _] [_ Htok2]. apply trim_id. split.
  - by apply starts_clean_app.
  - rewrite !rev_app_s, app_assoc_s. apply starts_clean_app; [|done].
    intros Hrev. apply Htok. by rewrite <-(rev_involutive_s tok), Hrev.
Qed.

(** An empty scheme leaves the bare token. *)
Lemma trim_bare (tok : string) : Js.clean tok → Js.trim ("" +:+ " " +:+ tok) = tok.
Proof. intros H. rewrite <-(trim_id tok H) at 2. done. Qed.

(** ** The auth header *)

Lemma authToken_truthy (v : GqlClient TokenOpts) (tok : TokenOpts) (vl : string) :
  token v = Some tok → value tok = Some vl → vl ≠ "" →
  Generate.authToken v = Some (Js.trim (Js.render (type tok) +:+ " " +:+ vl)).
Proof.
  intros Ht Hv Hne. unfold Generate.authToken, Generate.tokenValue.
  rewrite Ht. simpl. rewrite Hv.
  by rewrite (proj2 (truthy_Some vl) Hne).
Qed.

Lemma introspectionHeaders_auth (v : GqlClient TokenOpts) (tok : TokenOpts)
    (vl : string) :
  token v = Some tok → value tok = Some vl → vl ≠ "" →
  Js.trim (Js.render (type tok) +:+ " " +:+ vl) ≠ "" →
  Generate.introspectionHeaders v !! Js.render (name tok)
  = Some (HStr (Js.trim (Js.render (type tok) +:+ " " +:+ vl))).
Proof.
  intros Ht Hv Hne Htrim. unfold Generate.introspectionHeaders.
  rewrite (authToken_truthy v tok vl Ht Hv Hne). unfold Generate.withToken.
  rewrite (proj2 (truthy_Some _) Htrim), Ht. simpl.
  apply lookup_insert_eq.
Qed.

Lemma setHeaders_lookup (p : Composables.PatchHeaders) (current : Headers)
    (key : string) :
  Composables.setHeaders p current !! key
  = match p !! key with
    | Some (Some v) => Some v
    | Some None => None
    | None => current !! key
    end.
Proof.
  unfold Composables.setHeaders. rewrite lookup_merge.
  destruct (p !! key) as [[?|]|], (current !! key); done.
Qed.

(** C4. The auth header value is [`${type} ${value}`.trim()] wherever it is
    built: in the introspection headers of both variants of [prepareConfig],
    under the token's header name, for a client with a token and no local
    schema; and in the patch of [useGqlToken].  The trimmed text has no white
    space at either end, a scheme and a token are joined by one space, and an
    empty scheme leaves the bare token.  Called with a null or empty token,
    [useGqlToken] patches the header to [undefined], not to a blank string,
    and the transport's [setOptions] then has no such header while the
    other headers stay. *)
Theorem auth_header_value :
  (∀ (v : GqlClient TokenOpts) (tok : TokenOpts) (vl : string)
     (resolve : string → string),
     token v = Some tok → value tok = Some vl → vl ≠ "" →
     let auth := Js.trim (Js.render (type tok) +:+ " " +:+ vl) in
     Generate.authToken v = Some auth
     ∧ (auth ≠ "" → Js.truthy (schema v) = false →
        ∃ hdrs,
          hdrs !! Js.render (name tok) = Some (HStr auth)
          ∧ (Generate.prepareClient v).1
            = Generate.SUrl (Js.render (host v)) hdrs
          ∧ (Stitch.prepareClient resolve v).1
            = (Generate.SUrl (Js.render (host v)) hdrs,
               Stitch.EObj (host v) hdrs)))
  ∧ (∀ (clients : gmap string (GqlClient TokenOpts))
       (args : Composables.TokenArgs),
       let cfg := Composables.tokenConfig clients args in
       Composables.useGqlToken clients args
       = Composables.setGqlState (Composables.tokenClient args)
           (Composables.PHeaders (Some
              {[ Js.render (Composables.name cfg) :=
                   if Js.truthy (Composables.token args)
                   then Some (HStr (Js.trim
                          (Js.render (Composables.type cfg) +:+ " "
                           +:+ Js.render (Composables.token args))))
                   else None ]})))
  ∧ (∀ (clients : gmap string (GqlClient TokenOpts))
       (args : Composables.TokenArgs) (current : Headers),
       Js.truthy (Composables.token args) = false →
       ∃ key p,
         Composables.patch (Composables.useGqlToken clients args)
         = Composables.PHeaders (Some p)
         ∧ p = {[ key := None ]}
         ∧ Composables.setHeaders p current !! key = None
         ∧ ∀ other, other ≠ key →
             Composables.setHeaders p current !! other = current !! other)
  ∧ (∀ s, Js.clean (Js.trim s))
  ∧ (∀ ty tok, ty ≠ "" → tok ≠ "" → Js.clean ty → Js.clean tok →
       Js.trim (ty +:+ " " +:+ tok) = ty +:+ " " +:+ tok)
  ∧ (∀ tok, Js.clean tok → Js.trim ("" +:+ " " +:+ tok) = tok).
Proof.
  split_and!.
  - intros v tok vl resolve Ht Hv Hne auth. split.
    { by apply authToken_truthy. }
    intros Hauth Hs. exists (Generate.introspectionHeaders v).
    assert (Hval : Js.truthy (Generate.tokenValue v) = true).
    { unfold Generate.tokenValue. rewrite Ht. simpl. rewrite Hv.
      by apply truthy_Some. }
    split_and!.
    + by apply introspectionHeaders_auth.
    + unfold Generate.prepareClient. by rewrite Hs, Hval.
    + unfold Stitch.prepareClient. by rewrite Hs, Hval.
  - intros clients args cfg. unfold Composables.useGqlToken, Composables.tokenHeader.
    fold cfg. by destruct (Js.truthy (Composables.token args)).
  - intros clients args current Hfalsy.
    eexists _, _. split_and!.
    + unfold Composables.useGqlToken, Composables.tokenHeader.
      rewrite Hfalsy. reflexivity.
    + reflexivity.
    + by rewrite setHeaders_lookup, lookup_singleton_eq.
    + intros other Hne. by rewrite setHeaders_lookup, lookup_singleton_ne.
  - apply trim_clean.
  - apply trim_joined.
  - apply trim_bare.
Qed.

(** A client with the token [abc]: the header is [Bearer abc]. *)
Lemma auth_header_value_witness :
  Generate.authToken tokenClientCfg = Some "Bearer abc".
Proof.
  refine (proj1 (proj1 auth_header_value tokenClientCfg
                   {| name := Some "Authorization"; value := Some "abc";
                      type := Some "Bearer" |} "abc" id eq_refl eq_refl _)).
  discriminate.
Defined.

(** ** Dispatch *)

Section DispatchFacts.

Context {Instance : Type}.

Lemma find_first (ops : list (string * list string)) (operation : string)
    pre k l post :
  ops = pre ++ (k, l) :: post →
  (∀ k' l', (k', l') ∈ pre → operation ∉ l') →
  operation ∈ l →
  List.find (λ kv, bool_decide (operation ∈ kv.2)) ops = Some (k, l).
Proof.
  intros -> Hpre Hin. induction pre as [|[k0 l0] pre IH]; simpl.
  - by rewrite bool_decide_eq_true_2.
  - rewrite bool_decide_eq_false_2.
    + apply IH. intros k' l' H. apply (Hpre k' l'). by right.
    + apply (Hpre k0 l0). by left.
Qed.

Lemma find_none (ops : list (string * list string)) (operation : string) :
  (∀ k l, (k, l) ∈ ops → operation ∉ l) →
  List.find (λ kv, bool_decide (operation ∈ kv.2)) ops = None.
Proof.
  intros Hno. induction ops as [|[k0 l0] ops IH]; simpl; [done|].
  rewrite bool_decide_eq_false_2.
  - apply IH. intros k l H. apply (Hno k l). by right.
  - apply (Hno k0 l0). by left.
Qed.

(** C5. [useAsyncGql] runs an operation on the transport instance of the
    first client, in the key order of [GqlOperations], whose list of
    operations includes the operation's name; for an operation no client
    lists it runs it on the instance of [default].  With [GetUser] owned by
    [default] and [GetPost] by [blog], [GetPost] runs on the instance of
    [blog]. *)
Theorem dispatch_routes_to_owner
    (ops : list (string * list string)) (state : gmap string Instance)
    (operation : string) :
  (∀ pre k l post,
     ops = pre ++ (k, l) :: post →
     (∀ k' l', (k', l') ∈ pre → operation ∉ l') →
     operation ∈ l →
     Composables.ownerOf ops operation = k
     ∧ (k ≠ "" →
        Composables.dispatch ops state operation
        = match state !! k with
          | Some i => Ok i
          | None => Throw "TypeError: Cannot destructure property 'instance'"
          end))
  ∧ ((∀ k l, (k, l) ∈ ops → operation ∉ l) →
     Composables.ownerOf ops operation = "default"
     ∧ Composables.dispatch ops state operation
       = Composables.handle state (Some "default"))
  ∧ (∀ onDefault onBlog : Instance,
       ops = [("default", ["GetUser"]); ("blog", ["GetPost"])] →
       state = {[ "default" := onDefault; "blog" := onBlog ]} →
       operation = "GetPost" →
       Composables.ownerOf ops operation = "blog"
       ∧ Composables.dispatch ops state operation = Ok onBlog).
Proof.
  split_and!.
  - intros pre k l post Hops Hpre Hin.
    assert (Howner : Composables.ownerOf ops operation = k).
    { unfold Composables.ownerOf.
      by rewrite (find_first ops operation pre k l post Hops Hpre Hin). }
    split; [done|]. intros Hk.
    unfold Composables.dispatch, Composables.handle, Composables.orDefault.
    rewrite Howner, or_truthy_l by by apply truthy_Some. done.
  - intros Hno.
    assert (Howner : Composables.ownerOf ops operation = "default").
    { unfold Composables.ownerOf. by rewrite (find_none ops operation Hno). }
    split; [done|]. unfold Composables.dispatch. by rewrite Howner.
  - intros onDefault onBlog -> -> ->. split; reflexivity.
Qed.

End DispatchFacts.

(** The scenario of the two clients, with the hosts standing for the
    instances. *)
Lemma dispatch_routes_to_owner_witness :
  Composables.dispatch
    [("default", ["GetUser"]); ("blog", ["GetPost"])]
    {[ "default" := "https://api.a/graphql"; "blog" := "https://api.b/graphql" ]}
    "GetPost"
  = Ok "https://api.b/graphql".
Proof.
  exact (proj2 (proj2 (proj2
           (dispatch_routes_to_owner
              [("default", ["GetUser"]); ("blog", ["GetPost"])]
              {[ "default" := "https://api.a/graphql";
                 "blog" := "https://api.b/graphql" ]} "GetPost"))
           "https://api.a/graphql" "https://api.b/graphql"
           eq_refl eq_refl eq_refl)).
Defined.

(** ** Document filtering *)

Lemma prefix_inv (p s : string) :
  String.prefix p s = true → ∃ r, s = p +:+ r.
Proof.
  revert s. induction p as [|c p IH]; intros s H.
  - by exists s.
  - destruct s as [|d s]; [done|]. simpl in H.
    destruct (ascii_dec c d) as [->|]; [|done].
    destruct (IH s H) as [r ->]. by exists r.
Qed.

Lemma endsWith_inv (f ext : string) :
  Documents.endsWith f ext = true →
  ∃ rest, String.rev f = String.rev ext +:+ rest.
Proof. apply prefix_inv. Qed.

(** For a path that ends in [.gql] or [.graphql], what the regular
    expression of [allowDocument] matches is the file name, unless the file
    name is the bare extension, which it does not match. *)
Lemma matchDocument_basename (f : string) :
  Documents.hasDocumentExtension f = true →
  Documents.matchDocument f = Some (Documents.basename f)
  ∨ (Documents.matchDocument f = None
     ∧ (Documents.basename f = ".gql" ∨ Documents.basename f = ".graphql")).
Proof.
  unfold Documents.hasDocumentExtension. intros Hext.
  destruct (Documents.endsWith f ".gql") eqn:Hgql.
  - destruct (endsWith_inv f ".gql" Hgql) as [rest Hf].
    change (String.rev ".gql") with "lqg." in Hf.
    assert (Hbase : Documents.basename f
                    = String.rev (Documents.takeName rest) +:+ ".gql").
    { unfold Documents.basename. rewrite Hf.
      change (Documents.takeName ("lqg." +:+ rest))
        with ("lqg." +:+ Documents.takeName rest).
      by rewrite rev_app_s. }
    unfold Documents.matchDocument, Documents.matchWith.
    rewrite Hgql, Hf.
    change (Documents.skip (String.length ".gql") ("lqg." +:+ rest)) with rest.
    destruct (String.eqb_spec (Documents.takeName rest) "") as [Hstem|Hstem].
    + right. rewrite Hbase, Hstem. split; [|by left].
      unfold Documents.endsWith. by rewrite Hf.
    + left. by rewrite Hbase.
  - simpl in Hext.
    destruct (endsWith_inv f ".graphql" Hext) as [rest Hf].
    change (String.rev ".graphql") with "lqhparg." in Hf.
    assert (Hbase : Documents.basename f
                    = String.rev (Documents.takeName rest) +:+ ".graphql").
    { unfold Documents.basename. rewrite Hf.
      change (Documents.takeName ("lqhparg." +:+ rest))
        with ("lqhparg." +:+ Documents.takeName rest).
      by rewrite rev_app_s. }
    unfold Documents.matchDocument, Documents.matchWith.
    rewrite Hgql, Hext, Hf.
    change (Documents.skip (String.length ".graphql") ("lqhparg." +:+ rest))
      with rest.
    destruct (String.eqb_spec (Documents.takeName rest) "") as [Hstem|Hstem].
    + right. rewrite Hbase, Hstem. split; [done|by right].
    + left. by rewrite Hbase.
Qed.

Lemma isSchema_basename (f : string) :
  Documents.hasDocumentExtension f = true →
  Documents.isSchema f
  = Js.includes (Js.toLowerCase (Documents.basename f)) "schema".
Proof.
  intros Hext. unfold Documents.isSchema.
  destruct (matchDocument_basename f Hext) as [->|[-> [->| ->]]]; done.
Qed.

Section DocumentFacts.

Context (size : string → N) (resolveFiles : string → list string).

(** Without documents only the types plugin runs. *)
Lemma plugins_types_only : Documents.plugins [] = ["typescript"].
Proof. reflexivity. Qed.

(** A deleted document starts a regeneration whatever its name and size. *)
Lemma regenerates_unlink (path : string) :
  Documents.regenerates size "unlink" path
  = Documents.hasDocumentExtension path.
Proof. unfold Documents.regenerates. simpl. apply andb_true_r. Qed.

Lemma allowDocument_spec (f : string) :
  Documents.hasDocumentExtension f = true →
  Documents.allowDocument size f = true
  ↔ Js.includes (Js.toLowerCase (Documents.basename f)) "schema" = false
    ∧ size f ≠ 0%N.
Proof.
  intros Hext. unfold Documents.allowDocument.
  rewrite (isSchema_basename f Hext), andb_true_iff, !negb_true_iff.
  by rewrite N.eqb_neq.
Qed.

(** A created or changed file starts a regeneration exactly when it would be
    kept as a document. *)
Lemma regenerates_document (event path : string) :
  event ≠ "unlink" →
  Documents.regenerates size event path = true
  ↔ Documents.hasDocumentExtension path = true
    ∧ Js.includes (Js.toLowerCase (Documents.basename path)) "schema" = false
    ∧ size path ≠ 0%N.
Proof.
  intros Hev. unfold Documents.regenerates.
  rewrite (proj2 (String.eqb_neq event "unlink") Hev), andb_true_iff. simpl.
  split.
  - intros [Hext Hallow]. split; [done|]. by apply allowDocument_spec.
  - intros (Hext & Hname & Hsize). split; [done|]. by apply allowDocument_spec.
Qed.






End DocumentFacts.


(** ** Schema stitching *)

Section StitchFacts.

Context (introspectSchema : string → Headers → Result Stitch.GraphQLSchema).
Context (loadSchema : Stitch.SchemaEntry → option Stitch.GraphQLSchema).

Local Abbreviation clientSchema := (Stitch.clientSchema introspectSchema loadSchema).
Local Abbreviation subschemasOf := (Stitch.subschemasOf introspectSchema loadSchema).
Local Abbreviation prepareSchemas := (Stitch.prepareSchemas introspectSchema loadSchema).

Lemma clientSchema_local_fails options k v :
  Stitch.localLoadFails loadSchema v → clientSchema options k v = Throw (Stitch.unableToLoad v).
Proof.
  intros (Hv & Hlocal & Hload). unfold Stitch.clientSchema.
  rewrite Hlocal, Hload. simpl. destruct v as [[s|]|h hdrs]; done.
Qed.

Lemma subschemasOf_first_failure options pre k v post :
  (∀ k' v', (k', v') ∈ pre → is_ok (clientSchema options k' v') = true) →
  Stitch.localLoadFails loadSchema v →
  subschemasOf options (pre ++ (k, v) :: post) = Throw (Stitch.unableToLoad v).
Proof.
  intros Hpre Hv. induction pre as [|[k0 v0] pre IH]; simpl.
  - by rewrite (clientSchema_local_fails options k v Hv).
  - assert (H0 : is_ok (clientSchema options k0 v0) = true)
      by (apply Hpre; by left).
    destruct (clientSchema options k0 v0) as [s0|]; [|done]. simpl.
    rewrite IH; [done|]. intros k' v' H. apply Hpre. by right.
Qed.

Lemma subschemasOf_ok options schemas ss :
  subschemasOf options schemas = Ok ss →
  ∀ k v, (k, v) ∈ schemas → is_ok (clientSchema options k v) = true.
Proof.
  revert ss. induction schemas as [|[k0 v0] schemas IH]; intros ss Hss k v Hin.
  - by apply elem_of_nil in Hin.
  - simpl in Hss. destruct (clientSchema options k0 v0) as [s0|] eqn:H0;
      [|discriminate].
    simpl in Hss. destruct (subschemasOf options schemas) as [ss'|] eqn:Hrest;
      [|discriminate].
    apply elem_of_cons in Hin as [Heq|Hin].
    + simplify_eq. by rewrite H0.
    + by apply (IH ss').
Qed.

Lemma prepareSchemas_throws options schemas k v :
  (k, v) ∈ schemas → Stitch.localLoadFails loadSchema v →
  ∃ msg, prepareSchemas schemas options = Throw msg.
Proof.
  intros Hin Hv. unfold Stitch.prepareSchemas.
  destruct (subschemasOf options schemas) as [ss|msg] eqn:Hss.
  - pose proof (subschemasOf_ok options schemas ss Hss k v Hin) as Hok.
    by rewrite (clientSchema_local_fails options k v Hv) in Hok.
  - by exists msg.
Qed.

(** C7. In [prepareSchemas], the turn of the loop for a client whose schema
    source is not a remote URL and whose schema cannot be loaded throws
    [Unable to load local schema file: ] followed by the entry, which for a
    declared schema file is its path: this is the error of the call when the
    loop reaches the client, and whatever the other clients are the call
    throws and returns no stitched schema.  The same holds for [prepareConfig] with
    stitching on and a client that declares a schema file. *)
Theorem local_schema_failure_is_fatal
    (options : option Stitch.StitchOptions)
    (schemas : list (string * Stitch.SchemaEntry))
    (k : string) (v : Stitch.SchemaEntry) :
  (k, v) ∈ schemas → Stitch.localLoadFails loadSchema v →
  clientSchema options k v = Throw (Stitch.unableToLoad v)
  ∧ (∃ msg, prepareSchemas schemas options = Throw msg)
  ∧ (∀ pre post,
       schemas = pre ++ (k, v) :: post →
       (∀ k' v', (k', v') ∈ pre → is_ok (clientSchema options k' v') = true) →
       prepareSchemas schemas options = Throw (Stitch.unableToLoad v))
  ∧ (∀ file, v = Stitch.EStr (Some file) →
       Stitch.unableToLoad v = "Unable to load local schema file: " +:+ file)
  ∧ (∀ resolve stitch clients c,
       Stitch.stitching (Some stitch) = true →
       (k, c) ∈ clients → Js.truthy (schema c) = true →
       v = Stitch.EStr (resolve <$> schema c) →
       ∃ msg, (Stitch.prepareConfig introspectSchema loadSchema resolve
                 (Some stitch) clients).1 = Throw msg).
Proof.
  intros Hin Hv. split_and!.
  - by apply clientSchema_local_fails.
  - by apply (prepareSchemas_throws options schemas k v).
  - intros pre post -> Hpre. unfold Stitch.prepareSchemas.
    by rewrite (subschemasOf_first_failure options pre k v post Hpre Hv).
  - by intros file ->.
  - intros resolve stitch clients c Hst Hc Hs Hentry.
    unfold Stitch.prepareConfig. rewrite Hst. simpl.
    destruct (prepareSchemas_throws (Some (Stitch.stitchOptionsOf stitch))
                (prod_map id (λ v, (Stitch.prepareClient resolve v).1.2) <$> clients)
                k v) as [msg Hmsg]; [|done|].
    + apply list_elem_of_fmap. exists (k, c). split; [|done].
      unfold prod_map, Stitch.prepareClient. simpl. by rewrite Hs, Hentry.
    + exists msg. by rewrite Hmsg.
Qed.

End StitchFacts.

(** The endpoint of [default] answers, the schema file of [blog] is not
    there: the pass throws and names the file. *)
Lemma local_schema_failure_is_fatal_witness :
  Stitch.prepareSchemas (λ _ _, Ok noSchema) (λ _, None)
    [("default", Stitch.EStr (Some "https://api.a/graphql"));
     ("blog", Stitch.EStr (Some "/app/schema.graphql"))] None
  = Throw "Unable to load local schema file: /app/schema.graphql".
Proof.
  refine (proj1 (proj2 (proj2 (local_schema_failure_is_fatal (λ _ _, Ok noSchema)
            (λ _, None) None _ "blog" (Stitch.EStr (Some "/app/schema.graphql")) _ _)))
            [("default", Stitch.EStr (Some "https://api.a/graphql"))] []
            eq_refl _).
  - right. by left.
  - by split_and!.
  - intros k' v' H. apply list_elem_of_singleton in H. by simplify_eq.
Defined.

(** ** The shared error slot *)

Section ErrorFacts.

Context {Callback Json Operation : Type}.
Context (extractOperation : string → Operation).

Local Abbreviation State := (Composables.ErrorState Callback Json Operation).
Local Abbreviation Event := (Composables.Event Callback Json).
Local Abbreviation Failure := (Composables.Failure Json).
Local Abbreviation captured := (Composables.captured extractOperation).
Local Abbreviation onResponseError := (Composables.onResponseError extractOperation).
Local Abbreviation run := (Composables.run extractOperation).

Lemma run_app (evs1 evs2 : list Event) (st : State) :
  run (evs1 ++ evs2) st
  = ((run evs2 (run evs1 st).1).1, (run evs1 st).2 ++ (run evs2 (run evs1 st).1).2).
Proof.
  revert st. induction evs1 as [|ev evs1 IH]; intros st; simpl.
  - by destruct (run evs2 st).
  - destruct (Composables.step extractOperation ev st) as [st1 ds1].
    rewrite IH. destruct (run evs1 st1) as [st2 ds2]. simpl.
    by rewrite app_assoc.
Qed.

Lemma step_at_most_once (ev : Event) (st : State) :
  length (Composables.step extractOperation ev st).2 ≤ 1.
Proof.
  destruct ev as [c f|ic pr cb]; simpl.
  - destruct (Composables.onError st); simpl; lia.
  - destruct (Composables.errState st); simpl; lia.
Qed.

Lemma run_at_most_once (evs : list Event) (st : State) :
  length (run evs st).2 ≤ length evs.
Proof.
  revert st. induction evs as [|ev evs IH]; intros st; simpl; [lia|].
  pose proof (step_at_most_once ev st) as H1.
  destruct (Composables.step extractOperation ev st) as [st1 ds1].
  specialize (IH st1). destruct (run evs st1) as [st2 ds2]. simpl in *.
  rewrite length_app. lia.
Qed.

(** C8. A failing response overwrites the slot with the error captured from
    it, whatever the slot held, and calls the registered handler with that
    error, once, or nobody when no handler is registered.  The captured
    error has the client [handle] was called for, [default] when none or an
    empty one was given, the status of the response, the operation
    extracted from the query of the request, or from the empty string when
    there is none, and the errors of the response data when they are an
    array, else the response data as the one error.  Registering a handler
    stores the callback on the client side, the console logger on the server
    outside production and nothing on the server in production, calls the
    callback once with the stored error when the slot is not empty, and not
    at all when it is empty, and leaves the slot as it is.  Over any
    sequence of failures and registrations no event causes more than one
    call, and after a failure the slot holds the error of that failure. *)
Theorem error_slot_overwrite_and_replay :
  (∀ (c : option string) (f : Failure),
     captured c f
     = Composables.mkGqlError
         match c with
         | Some k => if String.eqb k "" then "default" else k
         | None => "default"
         end
         (Composables.responseStatus f)
         (extractOperation (default "" (Composables.query f)))
         match Composables.dataErrors f with
         | Some errs => errs
         | None => [Composables.data f]
         end)
  ∧ (∀ (isClient production : bool) (cb : Callback) (st : State),
       Composables.onError (Composables.useGqlError isClient production cb st).1
       = if isClient then Some (Composables.UserCallback cb)
         else if production then None
         else Some Composables.ConsoleError)
  ∧ (∀ (c : option string) (f : Failure) (st : State),
     Composables.errState (onResponseError c f st).1 = Some (captured c f)
     ∧ Composables.onError (onResponseError c f st).1 = Composables.onError st
     ∧ (onResponseError c f st).2
       = match Composables.onError st with
         | Some h => [Composables.mkDelivery h (captured c f)]
         | None => []
         end
     ∧ length (onResponseError c f st).2 ≤ 1)
  ∧ (∀ (isClient production : bool) (cb : Callback) (st : State),
       (Composables.useGqlError isClient production cb st).2
       = match Composables.errState st with
         | Some e => [Composables.mkDelivery (Composables.UserCallback cb) e]
         | None => []
         end
       ∧ Composables.errState (Composables.useGqlError isClient production cb st).1
         = Composables.errState st)
  ∧ (∀ (c : option string) (f : Failure) (st : State)
       (isClient production : bool) (cb : Callback),
       (Composables.useGqlError isClient production cb
          (onResponseError c f st).1).2
       = [Composables.mkDelivery (Composables.UserCallback cb) (captured c f)])
  ∧ (∀ (evs : list Event) (st : State),
       length (run evs st).2 ≤ length evs)
  ∧ (∀ (evs : list Event) (c : option string)
       (f : Failure) (st : State),
       Composables.errState (run (evs ++ [Composables.Fails c f]) st).1
       = Some (captured c f)).
Proof.
  split_and!.
  - intros c f. unfold Composables.captured. f_equal.
    + unfold Composables.orDefault, Js.or, Js.truthy.
      destruct c as [k|]; [|done]. by destruct (String.eqb k "").
    + unfold Js.or, Js.truthy. destruct (Composables.query f) as [q|]; [|done].
      simpl. by destruct (String.eqb_spec q "") as [->|].
  - done.
  - intros c f st. split_and!; try done.
    unfold Composables.onResponseError. simpl.
    destruct (Composables.onError st); simpl; lia.
  - intros isClient production cb st. split; [|done].
    unfold Composables.useGqlError. simpl.
    by destruct (Composables.errState st).
  - done.
  - apply run_at_most_once.
  - intros evs c f st. by rewrite run_app.
Qed.

End ErrorFacts.

(** A response with status 500 and no error array to [GetPost] on [blog]:
    the slot holds the error of that response, whatever it held. *)
Lemma error_slot_overwrite_and_replay_witness :
  Composables.errState
    (Composables.onResponseError (Callback := unit) (Json := unit) id
       (Some "blog")
       (Composables.mkFailure (Some 500%Z) None tt (Some "query GetPost { post }"))
       (Composables.mkErrorState
          (Some (Composables.mkGqlError "default" (Some 400%Z) "query GetUser" [tt]))
          None)).1
  = Some (Composables.mkGqlError "blog" (Some 500%Z) "query GetPost { post }" [tt]).
Proof.
  pose proof (error_slot_overwrite_and_replay (Callback := unit) (Json := unit) id)
    as (Hcaptured & _ & Hslot & _).
  destruct (Hslot (Some "blog")
              (Composables.mkFailure (Some 500%Z) None tt
                 (Some "query GetPost { post }"))
              (Composables.mkErrorState
                 (Some (Composables.mkGqlError "default" (Some 400%Z)
                          "query GetUser" [tt]))
                 None)) as (-> & _).
  by rewrite Hcaptured.
Defined.

(** ** Prefixed root fields *)

Lemma prefixed_collision (a b f g : string) :
  Stitch.prefixed a f = Stitch.prefixed b g → a ≠ b →
  String.prefix (a +:+ "_") b = true ∨ String.prefix (b +:+ "_") a = true.
Proof.
  unfold Stitch.prefixed. revert b. induction a as [|c a IH]; intros [|d b] Heq Hne.
  - done.
  - left. change ("" +:+ "_" +:+ f) with (String "_" f) in Heq.
    rewrite app_cons_s in Heq. injection Heq as <- _.
    change ("" +:+ "_") with "_". simpl.
    destruct (ascii_dec "_" "_"); [|done]. by destruct b.
  - right. change ("" +:+ "_" +:+ g) with (String "_" g) in Heq.
    rewrite app_cons_s in Heq. injection Heq as -> _.
    change ("" +:+ "_") with "_". simpl.
    destruct (ascii_dec "_" "_"); [|done]. by destruct a.
  - rewrite !app_cons_s in Heq. injection Heq as -> Heq.
    assert (Hab : a ≠ b) by congruence.
    rewrite !app_cons_s. simpl. destruct (ascii_dec d d); [|done].
    by apply IH.
Qed.

Lemma prefix_underscore (a b : string) :
  String.prefix (a +:+ "_") b = true → Js.includes b "_" = true.
Proof.
  intros H. destruct (prefix_inv _ _ H) as [r ->].
  rewrite app_assoc_s. apply includes_app.
Qed.

Lemma rootFields_wrapped (k : string) (options : option Stitch.StitchOptions)
    (s : Stitch.GraphQLSchema) :
  options ≫= Stitch.prefixFields = Some true →
  Stitch.rootFields (Stitch.wrapSchema (Stitch.transformsOf k options) s)
  = (λ rf, (rf.1, Stitch.prefixed k rf.2)) <$> Stitch.rootFields s.
Proof.
  intros Hp. unfold Stitch.transformsOf. rewrite Hp. simpl.
  by destruct (default false (options ≫= Stitch.prefixTypes)).
Qed.

Section PrefixFacts.

Context (introspectSchema : string → Headers → Result Stitch.GraphQLSchema).
Context (loadSchema : Stitch.SchemaEntry → option Stitch.GraphQLSchema).

Lemma clientSchema_resolves options k v s :
  Stitch.resolvesTo introspectSchema loadSchema v s →
  Stitch.clientSchema introspectSchema loadSchema options k v
  = Ok (Stitch.wrapSchema (Stitch.transformsOf k options) s).
Proof.
  intros [Hv Hs]. unfold Stitch.clientSchema, Stitch.generateSchema.
  destruct (Stitch.isRemote _); rewrite Hs; by destruct v as [[?|]|].
Qed.

(** C9, as the code has it.  With root-field prefixing on, stitching the
    schemas of two clients [a] and [b] and printing the result gives a text
    in which every root field [f] of [a]'s schema appears as [a_f] and every
    root field [g] of [b]'s as [b_g].  The two names differ whenever neither
    client's name followed by an underscore is a prefix of the other's name,
    as when the names are distinct and without underscore. *)
Theorem stitched_fields_are_prefixed
    (options : option Stitch.StitchOptions) (a b : string)
    (va vb : Stitch.SchemaEntry) (sa sb : Stitch.GraphQLSchema) :
  options ≫= Stitch.prefixFields = Some true →
  Stitch.resolvesTo introspectSchema loadSchema va sa →
  Stitch.resolvesTo introspectSchema loadSchema vb sb →
  ∃ printed,
    Stitch.prepareSchemas introspectSchema loadSchema [(a, va); (b, vb)] options
    = Ok printed
    ∧ (∀ op f, (op, f) ∈ Stitch.rootFields sa →
         Stitch.rootName op +:+ "." +:+ Stitch.prefixed a f ∈ printed)
    ∧ (∀ op g, (op, g) ∈ Stitch.rootFields sb →
         Stitch.rootName op +:+ "." +:+ Stitch.prefixed b g ∈ printed)
    ∧ (a ≠ b → String.prefix (a +:+ "_") b = false →
       String.prefix (b +:+ "_") a = false →
       ∀ f g, Stitch.prefixed a f ≠ Stitch.prefixed b g)
    ∧ (a ≠ b → Js.includes a "_" = false → Js.includes b "_" = false →
       ∀ f g, Stitch.prefixed a f ≠ Stitch.prefixed b g).
Proof.
  intros Hp Ha Hb. unfold Stitch.prepareSchemas. simpl.
  rewrite (clientSchema_resolves options a va sa Ha),
          (clientSchema_resolves options b vb sb Hb). simpl.
  eexists. split; [reflexivity|].
  assert (Hline : ∀ k s op f,
            (k, s) ∈ [(a, sa); (b, sb)] → (op, f) ∈ Stitch.rootFields s →
            Stitch.rootName op +:+ "." +:+ Stitch.prefixed k f
            ∈ Stitch.printSchema
                (Stitch.stitchSchemas
                   [Stitch.wrapSchema (Stitch.transformsOf a options) sa;
                    Stitch.wrapSchema (Stitch.transformsOf b options) sb]
                   (options ≫= Stitch.mergeTypes))).
  { intros k s op f Hk Hf. unfold Stitch.printSchema. apply elem_of_app. right.
    apply list_elem_of_fmap. exists (op, Stitch.prefixed k f). split; [done|].
    simpl. apply elem_of_remove_dups.
    rewrite !rootFields_wrapped by done. rewrite app_nil_r.
    apply elem_of_app.
    apply elem_of_cons in Hk as [Hk|Hk]; [|apply list_elem_of_singleton in Hk];
      simplify_eq; [left|right];
      apply list_elem_of_fmap; by exists (op, f). }
  split_and!.
  - intros op f Hf. apply (Hline a sa); [by left|done].
  - intros op g Hg. apply (Hline b sb); [right; by left|done].
  - intros Hne Hab Hba f g Heq.
    destruct (prefixed_collision a b f g Heq Hne); congruence.
  - intros Hne Hna Hnb f g Heq.
    destruct (prefixed_collision a b f g Heq Hne) as [H|H];
      apply prefix_underscore in H; congruence.
Qed.

End PrefixFacts.

(** Stitching the schemas of [shop] and [blog], both local files. *)
Lemma stitched_fields_are_prefixed_witness :
  ∃ printed,
    Stitch.prepareSchemas (λ _ _, Throw "offline") sampleLoader
      [("shop", Stitch.EStr (Some "shop.graphql"));
       ("blog", Stitch.EStr (Some "blog.graphql"))] (Some prefixFieldsOn)
    = Ok printed
    ∧ "Query.shop_items" ∈ printed ∧ "Query.blog_posts" ∈ printed.
Proof.
  destruct (stitched_fields_are_prefixed (λ _ _, Throw "offline") sampleLoader
              (Some prefixFieldsOn) "shop" "blog"
              (Stitch.EStr (Some "shop.graphql"))
              (Stitch.EStr (Some "blog.graphql"))
              (sampleSchema "items") (sampleSchema "posts")
              eq_refl ltac:(by split) ltac:(by split))
    as (printed & Hrun & Ha & Hb & _ & _).
  exists printed. split_and!; [done|..].
  - apply (Ha Stitch.Query "items"). by left.
  - apply (Hb Stitch.Query "posts"). by left.
Defined.

(** C9 as stated fails: the clients [a] and [a_b] are distinct, the root
    field [b_c] of the first and the root field [c] of the second are both
    renamed to [a_b_c], and the printed schema declares that one field. *)
Lemma prefixed_names_collide :
  "a" ≠ "a_b"
  ∧ Stitch.prefixed "a" "b_c" = Stitch.prefixed "a_b" "c"
  ∧ Stitch.prepareSchemas (λ _ _, Throw "offline") collidingLoader
      [("a", Stitch.EStr (Some "first.graphql"));
       ("a_b", Stitch.EStr (Some "second.graphql"))] (Some prefixFieldsOn)
    = Ok ["type Query"; "Query.a_b_c"].
Proof. split_and!; [discriminate|reflexivity|reflexivity]. Qed.

(** ** What a generation pass does to the clients *)

Lemma dropServerOnly_idem (h : Headers) :
  Generate.dropServerOnly (Generate.dropServerOnly h) = Generate.dropServerOnly h.
Proof.
  unfold Generate.dropServerOnly.
  destruct (Generate.truthyValue (h !! "serverOnly")) eqn:Ht.
  - by rewrite lookup_delete_eq.
  - by rewrite Ht.
Qed.

Lemma prepareClient_with_schema (v : GqlClient TokenOpts) :
  Js.truthy (schema v) = true →
  Generate.prepareClient v = (Generate.SStr (schema v), v).
Proof. intros Hs. unfold Generate.prepareClient. by rewrite Hs. Qed.

Lemma prepareConfig_clients (clients : list (string * GqlClient TokenOpts))
    (k : string) (v : GqlClient TokenOpts) :
  (k, v) ∈ clients →
  (k, (Generate.prepareClient v).2) ∈ (Generate.prepareConfig clients).2.
Proof.
  intros Hin. unfold Generate.prepareConfig. simpl.
  apply list_elem_of_fmap. by exists (k, v).
Qed.

Lemma stitch_prepareConfig_clients
    (introspectSchema : string → Headers → Result Stitch.GraphQLSchema)
    (loadSchema : Stitch.SchemaEntry → option Stitch.GraphQLSchema)
    (resolve : string → string) (stitch : option Stitch.StitchCfg)
    (clients : list (string * GqlClient TokenOpts))
    (k : string) (v : GqlClient TokenOpts) :
  (k, v) ∈ clients →
  (k, (Stitch.prepareClient resolve v).2)
  ∈ (Stitch.prepareConfig introspectSchema loadSchema resolve stitch clients).2.
Proof.
  intros Hin.
  assert (H : (k, (Stitch.prepareClient resolve v).2)
              ∈ prod_map id (λ v, (Stitch.prepareClient resolve v).2) <$> clients).
  { apply list_elem_of_fmap. by exists (k, v). }
  unfold Stitch.prepareConfig. destruct stitch as [c|]; [|done].
  by destruct (Stitch.stitching (Some c)).
Qed.

(** C10, as the code has it.  [prepareConfig] changes the client objects it
    is given.  From a client without a local schema whose headers have a
    [serverOnly] sub-mapping it deletes that sub-mapping, in both variants:
    the first pass builds the introspection headers with the server-only
    entries, the client it leaves differs from the one it was given, and a
    second pass over the clients the first one left builds the headers
    without them and changes nothing more.  A client with a local schema
    keeps its headers, [serverOnly] included: the first variant leaves the
    client as it is, the stitching variant overwrites its [schema] with the
    resolved path and nothing else. *)
Theorem prepareConfig_mutates_clients
    (introspectSchema : string → Headers → Result Stitch.GraphQLSchema)
    (loadSchema : Stitch.SchemaEntry → option Stitch.GraphQLSchema)
    (resolve : string → string) (stitch : option Stitch.StitchCfg)
    (clients : list (string * GqlClient TokenOpts)) (k : string)
    (v : GqlClient TokenOpts) :
  (k, v) ∈ clients →
  (∀ h m,
     Js.truthy (schema v) = false →
     headers v = Some h → h !! "serverOnly" = Some (HObj m) →
     let v1 := Generate.withHeaders (Some (delete "serverOnly" h)) v in
     (k, v1) ∈ (Generate.prepareConfig clients).2
     ∧ (k, v1) ∈ (Generate.prepareConfig (Generate.prepareConfig clients).2).2
     ∧ (k, v1) ∈ (Stitch.prepareConfig introspectSchema loadSchema resolve
                    stitch clients).2
     ∧ v1 ≠ v
     ∧ Generate.prepareClient v
       = (Generate.SUrl (Js.render (host v))
            (Generate.withToken v (Generate.authToken v)
               ((HStr <$> m) ∪ delete "serverOnly" h)), v1)
     ∧ Generate.prepareClient v1
       = (Generate.SUrl (Js.render (host v))
            (Generate.withToken v (Generate.authToken v)
               (delete "serverOnly" h)), v1))
  ∧ (Js.truthy (schema v) = true →
     (k, v) ∈ (Generate.prepareConfig clients).2
     ∧ ∃ v', (k, v') ∈ (Stitch.prepareConfig introspectSchema loadSchema
                          resolve stitch clients).2
             ∧ schema v' = resolve <$> schema v
             ∧ headers v' = headers v ∧ host v' = host v ∧ token v' = token v).
Proof.
  intros Hin. split.
  - intros h m Hs Hh Hm v1.
    assert (H1 : Generate.prepareClient v
                 = (Generate.SUrl (Js.render (host v))
                      (Generate.withToken v (Generate.authToken v)
                         ((HStr <$> m) ∪ delete "serverOnly" h)), v1))
      by by apply prepareClient_introspected.
    assert (H2 : Generate.prepareClient v1
                 = (Generate.SUrl (Js.render (host v))
                      (Generate.withToken v (Generate.authToken v)
                         (delete "serverOnly" h)), v1)).
    { unfold Generate.prepareClient. simpl. rewrite Hs, andb_false_r.
      unfold Generate.introspectionHeaders, Generate.strip,
        Generate.serverHeadersOf, Generate.dropServerOnly. simpl.
      rewrite lookup_delete_eq. simpl. by rewrite (left_id_L ∅ (∪)). }
    assert (Hk1 : (k, v1) ∈ (Generate.prepareConfig clients).2).
    { pose proof (prepareConfig_clients clients k v Hin) as H.
      by rewrite H1 in H. }
    split_and!; try done.
    + pose proof (prepareConfig_clients _ k v1 Hk1) as H. by rewrite H2 in H.
    + pose proof (stitch_prepareConfig_clients introspectSchema loadSchema
                    resolve stitch clients k v Hin) as H.
      assert (Hv1 : (Stitch.prepareClient resolve v).2 = v1); [|by rewrite Hv1 in H].
      unfold Stitch.prepareClient. rewrite Hs, Hh.
      rewrite bool_decide_eq_true_2 by done. rewrite andb_false_r. simpl.
      unfold Generate.strip. rewrite Hh. simpl.
      by rewrite (proj2 (serverHeadersOf_object h m Hm)).
    + intros Heq. assert (Hv : headers v1 = headers v) by by rewrite Heq.
      simpl in Hv. rewrite Hh in Hv. injection Hv as Hv.
      assert (Hl : delete "serverOnly" h !! "serverOnly" = h !! "serverOnly")
        by by rewrite Hv.
      by rewrite lookup_delete_eq, Hm in Hl.
  - intros Hs. split.
    + pose proof (prepareConfig_clients clients k v Hin) as H.
      by rewrite (prepareClient_with_schema v Hs) in H.
    + exists (Stitch.prepareClient resolve v).2. split.
      * by apply stitch_prepareConfig_clients.
      * unfold Stitch.prepareClient. by rewrite Hs.
Qed.

(** The introspected client of the sample: the pass deletes its server-only
    headers. *)
Lemma prepareConfig_mutates_clients_witness :
  ("default",
   Generate.withHeaders (Some (delete "serverOnly" secretHeaders))
     (secretResolved None))
  ∈ (Generate.prepareConfig [("default", secretResolved None)]).2.
Proof.
  exact (proj1 (proj1 (prepareConfig_mutates_clients
                         (λ _ _, Throw "offline") sampleLoader id None
                         [("default", secretResolved None)] "default"
                         (secretResolved None) ltac:(by left))
                  secretHeaders {[ "X-Secret" := "s3cr3t" ]}
                  eq_refl eq_refl eq_refl)).
Defined.

(** C10 as stated fails: a client with a local schema and a [serverOnly]
    sub-mapping keeps the sub-mapping through a pass, and a second pass sees
    the clients the first one saw. *)
Lemma prepareConfig_keeps_server_only :
  headers (secretResolved (Some "/app/schema.graphql")) ≫= (.!! "serverOnly")
  = Some (HObj {[ "X-Secret" := "s3cr3t" ]})
  ∧ (Generate.prepareConfig
       [("default", secretResolved (Some "/app/schema.graphql"))]).2
    = [("default", secretResolved (Some "/app/schema.graphql"))]
  ∧ (Stitch.prepareConfig (λ _ _, Throw "offline") sampleLoader id None
       [("default", secretResolved (Some "/app/schema.graphql"))]).2
    = [("default", secretResolved (Some "/app/schema.graphql"))].
Proof. split_and!; reflexivity. Qed.


(** * Further properties *)

(** ** What [setup] writes for each client *)

Section SetupMore.

Context (env : gmap string string) (pubHost pubClientHost : option string).
Context (resolve : string → string) (existsSync : string → bool).

Local Abbreviation resolveClient := (Setup.resolveClient env resolve existsSync).
Local Abbreviation resolveClients := (Setup.resolveClients env resolve existsSync).
Local Abbreviation setup := (Setup.setup env pubHost pubClientHost resolve existsSync).

Lemma resolveClients_frame entries st st' (k : string) :
  resolveClients entries st = Ok st' → k ∉ entries.*1 →
  Setup.public_clients st' !! k = Setup.public_clients st !! k
  ∧ Setup.private_clients st' !! k = Setup.private_clients st !! k
  ∧ Setup.clientOps st' !! k = Setup.clientOps st !! k.
Proof.
  revert st. induction entries as [|[k0 v0] rest IH]; intros st Hrun Hk.
  - simpl in Hrun. by simplify_eq.
  - simpl in Hrun. destruct (resolveClient k0 v0) as [out0|] eqn:H0; [|discriminate].
    change (resolveClients rest (Setup.record k0 out0 st) = Ok st') in Hrun.
    rewrite fmap_cons in Hk. apply not_elem_of_cons in Hk as [Hne Hk].
    simpl in Hne.
    destruct (IH _ Hrun Hk) as (Hp & Hq & Ho). rewrite Hp, Hq, Ho. simpl.
    split_and!.
    + by rewrite lookup_insert_ne.
    + destruct (Setup.privateConf out0); [by rewrite lookup_insert_ne|done].
    + by rewrite lookup_insert_ne.
Qed.

Lemma resolveClients_lookup entries st st' (k : string) (v : ClientCfg) out :
  resolveClients entries st = Ok st' → NoDup entries.*1 →
  (k, v) ∈ entries → resolveClient k v = Ok out →
  Setup.public_clients st' !! k = Some (Setup.publicConf out)
  ∧ Setup.private_clients st' !! k
    = match Setup.privateConf out with
      | Some t => Some t
      | None => Setup.private_clients st !! k
      end
  ∧ Setup.clientOps st' !! k = Some [].
Proof.
  revert st. induction entries as [|[k0 v0] rest IH]; intros st Hrun Hnd Hin Hout.
  - by apply elem_of_nil in Hin.
  - simpl in Hrun. destruct (resolveClient k0 v0) as [out0|] eqn:H0; [|discriminate].
    change (resolveClients rest (Setup.record k0 out0 st) = Ok st') in Hrun.
    rewrite fmap_cons in Hnd. apply NoDup_cons in Hnd as [Hk0 Hnd]. simpl in Hk0.
    apply elem_of_cons in Hin as [Heq|Hin].
    + simplify_eq. assert (out0 = out) as -> by congruence.
      destruct (resolveClients_frame _ _ _ k0 Hrun Hk0) as (Hp & Hq & Ho).
      rewrite Hp, Hq, Ho. simpl. rewrite !lookup_insert_eq.
      split_and!; [done| |done].
      destruct (Setup.privateConf out); [by rewrite lookup_insert_eq|done].
    + assert (Hne : k0 ≠ k).
      { intros ->. apply Hk0. apply list_elem_of_fmap. by exists (k, v). }
      destruct (IH _ Hrun Hnd Hin Hout) as (Hp & Hq & Ho).
      split_and!; [done| |done].
      rewrite Hq. destruct (Setup.privateConf out); [done|]. simpl.
      destruct (Setup.privateConf out0); [by rewrite lookup_insert_ne|done].
Qed.

Lemma resolveClients_keys entries st st' :
  resolveClients entries st = Ok st' →
  (Setup.config_clients st').*1 = (Setup.config_clients st).*1 ++ entries.*1
  ∧ dom (Setup.public_clients st')
    = dom (Setup.public_clients st) ∪ list_to_set entries.*1
  ∧ dom (Setup.private_clients st')
    ⊆ dom (Setup.private_clients st) ∪ list_to_set entries.*1.
Proof.
  revert st. induction entries as [|[k0 v0] rest IH]; intros st Hrun.
  - simpl in Hrun. simplify_eq. simpl. rewrite app_nil_r. split_and!; set_solver.
  - simpl in Hrun. destruct (resolveClient k0 v0) as [out0|] eqn:H0; [|discriminate].
    change (resolveClients rest (Setup.record k0 out0 st) = Ok st') in Hrun.
    destruct (IH _ Hrun) as (Hc & Hp & Hq). rewrite Hc, Hp. simpl.
    rewrite fmap_app, <-app_assoc, dom_insert_L. simpl. split_and!.
    + done.
    + set_solver.
    + etrans; [exact Hq|]. simpl.
      destruct (Setup.privateConf out0); [rewrite dom_insert_L|]; set_solver.
Qed.

(** X1. The keys of the declared clients are kept: [config.clients] has the
    clients in their order, the public runtime config has exactly their
    names, the private one only names among them, and every client starts
    with an empty list of operations. *)
Theorem setup_keeps_client_names
    (clients : list (string * ClientCfg)) (st : Setup.Resolved) :
  clients ≠ [] → NoDup clients.*1 → setup clients = Ok st →
  (Setup.config_clients st).*1 = clients.*1
  ∧ dom (Setup.public_clients st) = list_to_set clients.*1
  ∧ dom (Setup.private_clients st) ⊆ dom (Setup.public_clients st)
  ∧ ∀ k, k ∈ clients.*1 → Setup.clientOps st !! k = Some [].
Proof.
  intros Hne Hnd Hst. rewrite setup_nonempty in Hst by done.
  destruct (resolveClients_keys _ _ _ Hst) as (Hc & Hp & Hq).
  simpl in Hc, Hp, Hq. rewrite dom_empty_L in Hp. rewrite dom_empty_L in Hq.
  split_and!.
  - done.
  - set_solver.
  - set_solver.
  - intros k Hk. apply list_elem_of_fmap in Hk as ([k' v] & -> & Hin). simpl.
    destruct (resolveClients_ok _ _ _ _ _ _ Hst) as (_ & _ & He).
    destruct (He k' v Hin) as (out & Hout & _).
    by destruct (resolveClients_lookup _ _ _ k' v out Hst Hnd Hin Hout) as (_ & _ & ?).
Qed.

(** X2. Where the token lives.  For a resolved client the token's header
    name and type are the same in [config.clients] and in the public runtime
    config.  When the client has a token, the private runtime config holds
    the token and the public one holds its value only if the user's entry
    sets [retainToken]; [config.clients] holds it either way.  When the
    client has no token, the private runtime config has no entry for it. *)
Theorem token_stays_server_side
    (clients : list (string * ClientCfg)) (st : Setup.Resolved)
    (k : string) (v : ClientCfg) :
  setup clients = Ok st → NoDup clients.*1 → (k, v) ∈ clients →
  ∃ c p tokc tokp,
    (k, c) ∈ Setup.config_clients st
    ∧ Setup.public_clients st !! k = Some p
    ∧ token c = Some tokc ∧ token p = Some tokp
    ∧ name tokp = name tokc ∧ type tokp = type tokc
    ∧ value tokc = (if Js.truthy (Setup.tokenOf env k v)
                    then Setup.tokenOf env k v else None)
    ∧ if Js.truthy (Setup.tokenOf env k v)
      then Setup.private_clients st !! k = Some tokc
           ∧ value tokp
             = (if default false (Setup.spread retainToken v)
                then value tokc else None)
      else Setup.private_clients st !! k = None ∧ value tokp = None.
Proof.
  intros Hst Hnd Hin.
  rewrite setup_nonempty in Hst by (intros ->; by apply elem_of_nil in Hin).
  destruct (resolveClients_ok _ _ _ _ _ _ Hst) as (_ & _ & He).
  destruct (He k v Hin) as (out & Hout & Hmem).
  destruct (resolveClients_lookup _ _ _ k v out Hst Hnd Hin Hout) as (Hp & Hq & _).
  simpl in Hq. rewrite lookup_empty in Hq.
  unfold Setup.resolveClient in Hout. destruct (negb _); [discriminate|].
  injection Hout as <-. simpl in *.
  destruct (Js.truthy (Setup.tokenOf env k v)) eqn:Ht; simpl in *.
  - rewrite Ht in *. simpl in *.
    destruct (default false (Setup.spread retainToken v)) eqn:Hr; simpl in *;
      eexists _, _, _, _; split_and!; try done; simpl; by rewrite ?Ht.
  - eexists _, _, _, _; split_and!; try done; simpl; by rewrite ?Ht.
Qed.

End SetupMore.

(** The two clients of the sample, [blog] with its token. *)
Lemma setup_keeps_client_names_witness :
  ∃ st,
    Setup.setup blogEnv None None id (λ _, true)
      [("default", CStr "https://api.a/graphql"); ("blog", blogClient)] = Ok st
    ∧ (Setup.config_clients st).*1 = ["default"; "blog"].
Proof.
  eexists. split; [reflexivity|].
  refine (proj1 (setup_keeps_client_names blogEnv None None id (λ _, true)
                   [("default", CStr "https://api.a/graphql"); ("blog", blogClient)]
                   _ _ _ eq_refl)).
  - discriminate.
  - apply (NoDup_cons_2 "default"); [|apply NoDup_singleton].
    intros H. apply list_elem_of_singleton in H. discriminate.
Defined.

(** The token [abc] of [blog] is in the private runtime config. *)
Lemma token_stays_server_side_witness :
  ∃ st tok,
    Setup.setup blogEnv None None id (λ _, true)
      [("default", CStr "https://api.a/graphql"); ("blog", blogClient)] = Ok st
    ∧ Setup.private_clients st !! "blog" = Some tok
    ∧ value tok = Some "abc".
Proof.
  eexists.
  destruct (token_stays_server_side blogEnv None None id (λ _, true)
              [("default", CStr "https://api.a/graphql"); ("blog", blogClient)]
              _ "blog" blogClient eq_refl)
    as (c & p & tokc & tokp & _ & _ & _ & _ & _ & _ & Hv & Hpriv).
  - apply (NoDup_cons_2 "default"); [|apply NoDup_singleton].
    intros H. apply list_elem_of_singleton in H. discriminate.
  - right. by left.
  - exists tokc. split; [reflexivity|]. split; [exact (proj1 Hpriv)|exact Hv].
Defined.

Section SetupFields.

Context (env : gmap string string) (pubHost pubClientHost : option string).
Context (resolve : string → string) (existsSync : string → bool).

Local Abbreviation resolveClient := (Setup.resolveClient env resolve existsSync).
Local Abbreviation setup := (Setup.setup env pubHost pubClientHost resolve existsSync).

Lemma or_self_l (a b : option string) : Js.or a (Js.or a b) = Js.or a b.
Proof. unfold Js.or. by destruct (Js.truthy a) eqn:H; rewrite ?H. Qed.

Lemma or_falsy_inv (a b : option string) :
  Js.truthy (Js.or a b) = false → Js.truthy a = false ∧ Js.truthy b = false.
Proof. unfold Js.or. destruct (Js.truthy a) eqn:H; [congruence|done]. Qed.

(** X3. The implicit client.  With no client declared and [GQL_HOST] set,
    in the environment or else in the public runtime config, [setup]
    resolves the one client [default]: its host is [GQL_HOST], its
    client-side host is [GQL_CLIENT_HOST] when that is set and absent
    otherwise, its token is [GQL_TOKEN], under the header name
    [GQL_TOKEN_NAME] or [Authorization] and with the type [Bearer]; cookies
    are proxied, and it has no schema file and no headers. *)
Theorem implicit_default_client :
  Js.truthy (Js.or (env !! "GQL_HOST") pubHost) = true →
  ∃ st c tok,
    setup [] = Ok st
    ∧ Setup.config_clients st = [("default", c)]
    ∧ host c = Js.or (env !! "GQL_HOST") pubHost
    ∧ clientHost c
      = (if Js.truthy (Js.or (env !! "GQL_CLIENT_HOST") pubClientHost)
         then Js.or (env !! "GQL_CLIENT_HOST") pubClientHost else None)
    ∧ token c = Some tok
    ∧ value tok = (if Js.truthy (env !! "GQL_TOKEN") then env !! "GQL_TOKEN"
                   else None)
    ∧ name tok = (if Js.truthy (env !! "GQL_TOKEN_NAME")
                  then env !! "GQL_TOKEN_NAME" else Some "Authorization")
    ∧ type tok = Some "Bearer"
    ∧ proxyCookies c = Some true ∧ schema c = None ∧ headers c = None
    ∧ retainToken c = None.
Proof.
  intros Hh.
  destruct (setup_implicit_host env pubHost pubClientHost Hh) as (v & Himp & Hhost).
  unfold Setup.setup. simpl. rewrite Himp. simpl.
  assert (Hv : Js.truthy (Setup.hostOf env "default" v) = true) by by rewrite Hhost.
  destruct (Setup.resolveClient env resolve existsSync "default" v) as [out|] eqn:Hout.
  2:{ destruct (resolveClient_ok env resolve existsSync "default" v Hv)
        as (? & ? & _); congruence. }
  destruct (resolveClient_inv _ _ _ _ _ _ Hout) as (_ & Hc & _).
  destruct (resolveClient_token _ _ _ _ _ _ Hout) as (tok & Htok & Hch & Hval & Hname & Hty).
  simpl. eexists. exists (Setup.conf out), tok.
  unfold Setup.implicitClients in Himp. rewrite Hh in Himp. simpl in Himp.
  injection Himp as <-.
  assert (Hfields : proxyCookies (Setup.conf out) = Some true
                    ∧ schema (Setup.conf out) = None
                    ∧ headers (Setup.conf out) = None
                    ∧ retainToken (Setup.conf out) = None).
  { unfold Setup.resolveClient in Hout. destruct (negb (Js.truthy (Setup.hostOf _ _ _)));
      [discriminate|]. injection Hout as <-. simpl.
    destruct (negb _); simpl; by rewrite ?andb_false_r. }
  destruct Hfields as (Hpc & Hs & Hhd & Hrt).
  unfold Setup.clientHostOf, Setup.tokenOf, Setup.tokenNameOf, Setup.tokenTypeOf,
    Setup.runtimeVar in *.
  change (Setup.envName "default" "CLIENT_HOST") with "GQL_CLIENT_HOST" in *.
  change (Setup.envName "default" "TOKEN") with "GQL_TOKEN" in *.
  change (Setup.envName "default" "TOKEN_NAME") with "GQL_TOKEN_NAME" in *.
  split_and!; try done.
  - by rewrite Hc, Hhost.
  - rewrite Hch.
    destruct (Js.truthy (Js.or (env !! "GQL_CLIENT_HOST") pubClientHost)) eqn:Hcl;
      simpl.
    + by rewrite or_self_l, Hcl.
    + destruct (or_falsy_inv _ _ Hcl) as [He _].
      by rewrite (or_falsy_l _ _ He).
  - rewrite Hval. destruct (negb _); simpl; unfold Js.or;
      destruct (Js.truthy (env !! "GQL_TOKEN")) eqn:He; simpl; by rewrite ?He.
  - rewrite Hname. destruct (negb _); simpl; unfold Js.or;
      destruct (Js.truthy (env !! "GQL_TOKEN_NAME")) eqn:He; simpl;
      by rewrite ?He.
  - rewrite Hty. by destruct (negb _).
Qed.

(** X4. A declared schema file.  When the file of a client's [schema]
    exists, the resolved client has the resolved path for its [schema].
    When it does not exist the resolved client keeps the path as the user
    wrote it, and [prepareConfig] then hands that path, not the host, to the
    code generator. *)
Theorem declared_schema_file
    (k : string) (c0 : GqlClient TokenCfg) (s : string) (out : Setup.ClientOut) :
  resolveClient k (CObj c0) = Ok out → schema c0 = Some s → s ≠ "" →
  (resolve s ≠ "" → existsSync (resolve s) = true →
   schema (Setup.conf out) = Some (resolve s)
   ∧ (Generate.prepareClient (Setup.conf out)).1
     = Generate.SStr (Some (resolve s)))
  ∧ (existsSync (resolve s) = false →
     schema (Setup.conf out) = Some s
     ∧ (Generate.prepareClient (Setup.conf out)).1 = Generate.SStr (Some s)).
Proof.
  intros Hout Hs Hne.
  assert (Hschema : schema (Setup.conf out)
                    = if Js.truthy (Some (resolve s)) && existsSync (resolve s)
                      then Some (resolve s) else Some s).
  { unfold Setup.resolveClient in Hout. destruct (negb _); [discriminate|].
    injection Hout as <-. simpl. rewrite Hs.
    rewrite (proj2 (truthy_Some s) Hne). done. }
  split.
  - intros Hr He. rewrite He, (proj2 (truthy_Some _) Hr) in Hschema.
    simpl in Hschema.
    split; [done|]. unfold Generate.prepareClient. rewrite Hschema.
    by rewrite (proj2 (truthy_Some _) Hr).
  - intros He. rewrite He, andb_false_r in Hschema.
    split; [done|]. unfold Generate.prepareClient. rewrite Hschema.
    by rewrite (proj2 (truthy_Some _) Hne).
Qed.

(** X5. From the environment to the introspection request.  For a resolved
    client without a schema file whose token is set, by [GQL_<K>_TOKEN] or by
    the user's entry, [prepareConfig] asks for introspection of the resolved
    host with the header [<name>: <type> <token>], the name and the type
    being the resolved ones. *)
Theorem resolved_token_reaches_introspection
    (k : string) (v : ClientCfg) (out : Setup.ClientOut) (t name : string) :
  resolveClient k v = Ok out →
  Js.truthy (schema (Setup.conf out)) = false →
  Setup.tokenOf env k v = Some t → t ≠ "" →
  Setup.tokenNameOf env k v = Some name →
  Js.trim (Setup.tokenTypeOf v +:+ " " +:+ t) ≠ "" →
  ∃ hdrs,
    (Generate.prepareClient (Setup.conf out)).1
    = Generate.SUrl (Js.render (Setup.hostOf env k v)) hdrs
    ∧ hdrs !! name = Some (HStr (Js.trim (Setup.tokenTypeOf v +:+ " " +:+ t))).
Proof.
  intros Hout Hs Ht Hne Hn Htrim.
  destruct (resolveClient_inv _ _ _ _ _ _ Hout) as (_ & Hhost & _).
  destruct (resolveClient_token _ _ _ _ _ _ Hout) as (tok & Htok & _ & Hval & Hname & Hty).
  rewrite Ht, (proj2 (truthy_Some t) Hne) in Hval. rewrite Hn in Hname.
  exists (Generate.introspectionHeaders (Setup.conf out)). split.
  - unfold Generate.prepareClient, Generate.tokenValue. rewrite Hs, Htok. simpl.
    rewrite Hval, (proj2 (truthy_Some t) Hne). simpl. by rewrite Hhost.
  - pose proof (introspectionHeaders_auth (Setup.conf out) tok t Htok Hval Hne) as H.
    rewrite Hty, Hname in H. simpl in H. by apply H.
Qed.

End SetupFields.

(** No client is declared and [GQL_HOST] and [GQL_TOKEN] are set. *)
Lemma implicit_default_client_witness :
  ∃ st c tok,
    Setup.setup hostEnv None None id (λ _, true) [] = Ok st
    ∧ Setup.config_clients st = [("default", c)]
    ∧ host c = Some "https://api.a/graphql"
    ∧ token c = Some tok ∧ value tok = Some "s3cr3t".
Proof.
  destruct (implicit_default_client hostEnv None None id (λ _, true) eq_refl)
    as (st & c & tok & Hst & Hc & Hh & _ & Htok & Hv & _).
  by exists st, c, tok.
Defined.

(** The schema file of the client is not there: the path stays as written. *)
Lemma declared_schema_file_witness :
  ∃ out,
    Setup.resolveClient ∅ id (λ _, false) "default" (CObj schemaClient) = Ok out
    ∧ (Generate.prepareClient (Setup.conf out)).1
      = Generate.SStr (Some "schema.graphql").
Proof.
  eexists. split; [reflexivity|].
  refine (proj2 (proj2 (declared_schema_file ∅ id (λ _, false) "default"
                          schemaClient "schema.graphql" _ eq_refl eq_refl _)
                   eq_refl)).
  discriminate.
Defined.

(** The token [abc] of [blog] goes out as [Authorization: Bearer abc]. *)
Lemma resolved_token_reaches_introspection_witness :
  ∃ out hdrs,
    Setup.resolveClient blogEnv id (λ _, true) "blog" blogClient = Ok out
    ∧ (Generate.prepareClient (Setup.conf out)).1
      = Generate.SUrl "https://env.b/graphql" hdrs
    ∧ hdrs !! "Authorization" = Some (HStr "Bearer abc").
Proof.
  eexists.
  destruct (resolved_token_reaches_introspection blogEnv id (λ _, true)
              "blog" blogClient _ "abc" "Authorization"
              eq_refl eq_refl eq_refl ltac:(discriminate) eq_refl
              ltac:(discriminate))
    as (hdrs & H1 & H2).
  exists hdrs. split; [reflexivity|]. by split.
Defined.

(** ** The directories that are scanned *)

Section ScanFacts.

Context (resolve : string → string) (existsSync : string → bool).
Context (srcDir : string) (size : string → N).
Context (resolveFiles : string → list string).

(** X6. The scanned directories.  The documents of a generation pass are
    the allowed files listed under the source directory, which is always
    scanned and scanned first, and under the configured document paths that
    exist; a configured path that does not exist contributes nothing. *)
Theorem scanned_documents (configured : option (list string)) (f : string) :
  hd_error (Setup.documentPaths resolve existsSync srcDir configured)
  = Some srcDir
  ∧ (f ∈ Documents.documents size resolveFiles
           (Setup.documentPaths resolve existsSync srcDir configured)
     ↔ Documents.allowDocument size f = true
       ∧ (f ∈ resolveFiles srcDir
          ∨ ∃ paths q,
              configured = Some paths ∧ q ∈ paths
              ∧ existsSync (resolve q) = true
              ∧ f ∈ resolveFiles (resolve q))).
Proof.
  split; [done|]. unfold Documents.documents. rewrite list_elem_of_bind. split.
  - intros (path & Hf & Hpath).
    apply list_elem_of_In, filter_In in Hf as [Hf Hallow].
    apply list_elem_of_In in Hf. split; [done|].
    unfold Setup.documentPaths in Hpath.
    apply elem_of_cons in Hpath as [->|Hpath]; [by left|]. right.
    destruct configured as [paths|]; [|by apply elem_of_nil in Hpath].
    apply list_elem_of_In, filter_In in Hpath as [Hpath He].
    apply list_elem_of_In, list_elem_of_fmap in Hpath as (q & -> & Hq).
    by exists paths, q.
  - intros (Hallow & [Hf|(paths & q & -> & Hq & He & Hf)]).
    + exists srcDir. split; [|by left].
      apply list_elem_of_In, filter_In. split; [by apply list_elem_of_In|done].
    + exists (resolve q). split.
      * apply list_elem_of_In, filter_In. split; [by apply list_elem_of_In|done].
      * unfold Setup.documentPaths. right.
        apply list_elem_of_In, filter_In. split; [|done].
        apply list_elem_of_In, list_elem_of_fmap. by exists q.
Qed.

End ScanFacts.

(** ** Generation passes *)

Lemma strip_idem (v : GqlClient TokenOpts) :
  Generate.strip (Generate.strip v) = Generate.strip v.
Proof.
  unfold Generate.strip, Generate.withHeaders. simpl. f_equal.
  destruct (headers v) as [h|]; simpl; [|done]. by rewrite dropServerOnly_idem.
Qed.

Lemma prepareClient_out (v : GqlClient TokenOpts) :
  (Generate.prepareClient v).2 = v
  ∨ (Generate.prepareClient v).2 = Generate.strip v.
Proof.
  unfold Generate.prepareClient. destruct (Js.truthy (schema v)); [by left|].
  destruct (_ && _); [by left|by right].
Qed.

Lemma prepareClient_settles (v : GqlClient TokenOpts) :
  (Generate.prepareClient (Generate.prepareClient v).2).2
  = (Generate.prepareClient v).2.
Proof.
  destruct (prepareClient_out v) as [H|H]; rewrite H; [done|].
  destruct (prepareClient_out (Generate.strip v)) as [H'|H']; rewrite H';
    [done|apply strip_idem].
Qed.

Lemma prepareClient_frame (v : GqlClient TokenOpts) :
  let v' := (Generate.prepareClient v).2 in
  host v' = host v ∧ clientHost v' = clientHost v ∧ schema v' = schema v
  ∧ token v' = token v ∧ retainToken v' = retainToken v
  ∧ proxyCookies v' = proxyCookies v
  ∧ (headers v' = headers v ∨ headers v' = Generate.dropServerOnly <$> headers v).
Proof.
  unfold Generate.prepareClient.
  destruct (Js.truthy (schema v)); simpl; [split_and!; auto|].
  destruct (_ && _); simpl; split_and!; auto.
Qed.

(** X7. A generation pass settles.  [prepareConfig] returns one schema
    element per client and keeps the clients' names and order; of a client
    it changes nothing but the headers, and those only by deleting
    [serverOnly]; a second pass over the clients it leaves changes nothing
    more. *)
Theorem generation_pass_settles (clients : list (string * GqlClient TokenOpts)) :
  let once := (Generate.prepareConfig clients).2 in
  length (Generate.prepareConfig clients).1 = length clients
  ∧ once.*1 = clients.*1
  ∧ (Generate.prepareConfig once).2 = once
  ∧ Forall2 (λ kv kv',
       host kv'.2 = host kv.2 ∧ clientHost kv'.2 = clientHost kv.2
       ∧ schema kv'.2 = schema kv.2 ∧ token kv'.2 = token kv.2
       ∧ retainToken kv'.2 = retainToken kv.2
       ∧ proxyCookies kv'.2 = proxyCookies kv.2
       ∧ (headers kv'.2 = headers kv.2
          ∨ headers kv'.2 = Generate.dropServerOnly <$> headers kv.2))
      clients once.
Proof.
  unfold Generate.prepareConfig. simpl. split_and!.
  - by rewrite length_fmap.
  - rewrite <-list_fmap_compose. apply list_fmap_ext. by intros i [k v] _.
  - rewrite <-list_fmap_compose. apply list_fmap_ext. intros i [k v] _. simpl.
    unfold prod_map. simpl. f_equal. by rewrite prepareClient_settles.
  - apply Forall2_fmap_r, Forall_Forall2_diag, Forall_forall.
    intros [k v] _. simpl. apply prepareClient_frame.
Qed.

(** X8. Which header wins.  In the introspection headers of a client with a
    [serverOnly] sub-mapping, the auth header, when the client has a token,
    is under the token's header name whatever else has that name; under any
    other name a server-only entry goes before a plain header of the same
    name, and the [serverOnly] key itself is not sent. *)
Theorem introspection_header_precedence
    (v : GqlClient TokenOpts) (h : Headers) (m : gmap string string)
    (key : string) :
  headers v = Some h → h !! "serverOnly" = Some (HObj m) →
  let hdrs := Generate.introspectionHeaders v in
  let authName := Js.render (token v ≫= name) in
  (∀ tok, Generate.authToken v = Some tok → tok ≠ "" →
          hdrs !! authName = Some (HStr tok))
  ∧ (Js.truthy (Generate.authToken v) = false ∨ key ≠ authName →
     hdrs !! key
     = match m !! key with
       | Some s => Some (HStr s)
       | None => if decide (key = "serverOnly") then None else h !! key
       end).
Proof.
  intros Hh Hm hdrs authName.
  destruct (serverHeadersOf_object h m Hm) as [Hsrv Hdrop].
  assert (Hbase : ∀ i, ((HStr <$> m) ∪ delete "serverOnly" h) !! i
                       = match m !! i with
                         | Some s => Some (HStr s)
                         | None => if decide (i = "serverOnly") then None
                                   else h !! i
                         end).
  { intros i. rewrite lookup_union, lookup_fmap, lookup_delete.
    destruct (m !! i); simpl.
    - destruct (decide ("serverOnly" = i)); by destruct (h !! i).
    - destruct (decide ("serverOnly" = i)), (decide (i = "serverOnly"));
        try congruence; by destruct (h !! i). }
  unfold hdrs, Generate.introspectionHeaders. rewrite Hh, Hsrv, Hdrop.
  unfold Generate.withToken. split.
  - intros tok -> Hne. rewrite (proj2 (truthy_Some tok) Hne).
    apply lookup_insert_eq.
  - intros Hcase. destruct (Generate.authToken v) as [tok|] eqn:Ha; [|apply Hbase].
    destruct (Js.truthy (Some tok)) eqn:Ht; [|apply Hbase].
    destruct Hcase as [Hf|Hkey]; [congruence|].
    rewrite lookup_insert_ne by done. apply Hbase.
Qed.

(** The sample client: the server-only [X-Secret] is sent, [serverOnly] is
    not. *)
Lemma introspection_header_precedence_witness :
  Generate.introspectionHeaders (secretResolved None) !! "X-Secret"
  = Some (HStr "s3cr3t")
  ∧ Generate.introspectionHeaders (secretResolved None) !! "serverOnly" = None.
Proof.
  split.
  - exact (proj2 (introspection_header_precedence (secretResolved None)
                    secretHeaders {[ "X-Secret" := "s3cr3t" ]} "X-Secret"
                    eq_refl eq_refl) (or_introl eq_refl)).
  - exact (proj2 (introspection_header_precedence (secretResolved None)
                    secretHeaders {[ "X-Secret" := "s3cr3t" ]} "serverOnly"
                    eq_refl eq_refl) (or_introl eq_refl)).
Defined.

(** ** The two variants of [prepareConfig], and stitching *)

Section StitchMore.

Context (introspectSchema : string → Headers → Result Stitch.GraphQLSchema).
Context (loadSchema : Stitch.SchemaEntry → option Stitch.GraphQLSchema).
Context (resolve : string → string).

Local Abbreviation clientSchema := (Stitch.clientSchema introspectSchema loadSchema).
Local Abbreviation subschemasOf := (Stitch.subschemasOf introspectSchema loadSchema).
Local Abbreviation prepareSchemas := (Stitch.prepareSchemas introspectSchema loadSchema).

Lemma stitch_prepareClient_agrees (v : GqlClient TokenOpts) :
  (∀ s, schema v = Some s → s ≠ "" → resolve s = s) →
  (Stitch.prepareClient resolve v).1.1 = (Generate.prepareClient v).1
  ∧ (Stitch.prepareClient resolve v).2 = (Generate.prepareClient v).2.
Proof.
  intros Hfix. unfold Stitch.prepareClient, Generate.prepareClient.
  destruct (Js.truthy (schema v)) eqn:Hs.
  - destruct (truthy_inv _ Hs) as (s & Hsv & Hne).
    assert (Hr : resolve <$> schema v = schema v).
    { rewrite Hsv. simpl. by rewrite (Hfix s Hsv Hne). }
    simpl. rewrite Hr. split; [done|]. by destruct v.
  - by destruct (_ && _).
Qed.

(** X9. Without stitching the two variants agree.  When [stitchSchemas] is
    not set, or is [false], and the clients' schema paths are already
    resolved, the later [prepareConfig] returns the schema list of the
    earlier one and leaves the clients as the earlier one does. *)
Theorem variants_agree_without_stitching
    (stitch : option Stitch.StitchCfg)
    (clients : list (string * GqlClient TokenOpts)) :
  Stitch.stitching stitch = false →
  (∀ k v s, (k, v) ∈ clients → schema v = Some s → s ≠ "" → resolve s = s) →
  Stitch.prepareConfig introspectSchema loadSchema resolve stitch clients
  = (Ok (Stitch.Specs (Generate.prepareConfig clients).1),
     (Generate.prepareConfig clients).2).
Proof.
  intros Hst Hfix.
  assert (H1 : (λ kv, (Stitch.prepareClient resolve kv.2).1.1) <$> clients
               = (Generate.prepareConfig clients).1).
  { unfold Generate.prepareConfig. simpl. apply list_fmap_ext.
    intros i [k v] Hi. simpl.
    apply (stitch_prepareClient_agrees v). intros s. apply (Hfix k).
    by eapply list_elem_of_lookup_2. }
  assert (H2 : prod_map id (λ v, (Stitch.prepareClient resolve v).2) <$> clients
               = (Generate.prepareConfig clients).2).
  { unfold Generate.prepareConfig. simpl. apply list_fmap_ext.
    intros i [k v] Hi. unfold prod_map. simpl. f_equal.
    apply (stitch_prepareClient_agrees v). intros s. apply (Hfix k).
    by eapply list_elem_of_lookup_2. }
  unfold Stitch.prepareConfig. rewrite H1, H2.
  destruct stitch as [c|]; [|done]. by rewrite Hst.
Qed.

Lemma subschemasOf_all options schemas :
  (∀ k v, (k, v) ∈ schemas → is_ok (clientSchema options k v) = true) →
  is_ok (subschemasOf options schemas) = true.
Proof.
  induction schemas as [|[k v] schemas IH]; intros Hall; [done|]. simpl.
  assert (Hv : is_ok (clientSchema options k v) = true) by (apply Hall; by left).
  destruct (clientSchema options k v) as [s|]; [|done]. simpl.
  assert (Hrest : is_ok (subschemasOf options schemas) = true).
  { apply IH. intros k' v' H. apply Hall. by right. }
  by destruct (subschemasOf options schemas).
Qed.

Lemma subschemasOf_first_error options pre k v post msg :
  (∀ k' v', (k', v') ∈ pre → is_ok (clientSchema options k' v') = true) →
  clientSchema options k v = Throw msg →
  subschemasOf options (pre ++ (k, v) :: post) = Throw msg.
Proof.
  intros Hpre Hv. induction pre as [|[k0 v0] pre IH]; simpl.
  - by rewrite Hv.
  - assert (H0 : is_ok (clientSchema options k0 v0) = true)
      by (apply Hpre; by left).
    destruct (clientSchema options k0 v0) as [s0|]; [|done]. simpl.
    rewrite IH; [done|]. intros k' v' H. apply Hpre. by right.
Qed.

(** X10. All or nothing.  [prepareSchemas] returns a stitched schema exactly
    when the schema of every client resolves; otherwise it throws the error
    of the first client that fails, as that client's turn threw it.  For a
    client with a remote host that turn is the introspection alone: its
    error comes out as it is, and the file loader plays no part. *)
Theorem stitching_is_all_or_nothing
    (options : option Stitch.StitchOptions)
    (schemas : list (string * Stitch.SchemaEntry)) :
  (is_ok (prepareSchemas schemas options) = true
   ↔ ∀ k v, (k, v) ∈ schemas → is_ok (clientSchema options k v) = true)
  ∧ (∀ pre k v post msg,
       schemas = pre ++ (k, v) :: post →
       (∀ k' v', (k', v') ∈ pre → is_ok (clientSchema options k' v') = true) →
       clientSchema options k v = Throw msg →
       prepareSchemas schemas options = Throw msg)
  ∧ (∀ k v,
       v ≠ Stitch.EStr None →
       Stitch.isRemote (Js.render (Stitch.hostOfEntry v)) = true →
       clientSchema options k v
       = Stitch.wrapSchema (Stitch.transformsOf k options)
         <$> introspectSchema (Js.render (Stitch.hostOfEntry v))
               (Stitch.headersOfEntry v)).
Proof.
  split_and!.
  - unfold Stitch.prepareSchemas. split.
    + intros Hok k v Hin.
      destruct (subschemasOf options schemas) as [ss|] eqn:Hss; [|done].
      by apply (subschemasOf_ok _ _ options schemas ss Hss).
    + intros Hall. pose proof (subschemasOf_all options schemas Hall) as H.
      by destruct (subschemasOf options schemas).
  - intros pre k v post msg -> Hpre Hv. unfold Stitch.prepareSchemas.
    by rewrite (subschemasOf_first_error options pre k v post msg Hpre Hv).
  - intros k v Hv Hremote. unfold Stitch.clientSchema, Stitch.generateSchema.
    rewrite Hremote.
    destruct v as [[s|]|h hdrs]; [|done|];
      by destruct (introspectSchema _ _).
Qed.

(** X11. Stitching without prefixes.  When neither [prefixTypes] nor
    [prefixFields] is set, as with a bare [stitchSchemas: true], no transform
    is built: the schemas handed to the stitch step are the clients' schemas
    as their sources gave them, in the clients' order, and what is printed
    is their stitched schema. *)
Theorem stitching_without_prefixes
    (options : option Stitch.StitchOptions)
    (schemas : list (string * Stitch.SchemaEntry))
    (ss : list Stitch.GraphQLSchema) :
  default false (options ≫= Stitch.prefixTypes) = false →
  default false (options ≫= Stitch.prefixFields) = false →
  Forall2 (λ kv s, Stitch.resolvesTo introspectSchema loadSchema kv.2 s)
    schemas ss →
  prepareSchemas schemas options
  = Ok (Stitch.printSchema (Stitch.stitchSchemas ss (options ≫= Stitch.mergeTypes)))
  ∧ Stitch.subschemasOf introspectSchema loadSchema options schemas = Ok ss
  ∧ default false (Some (Stitch.stitchOptionsOf (Stitch.StitchBool true))
                   ≫= Stitch.prefixTypes) = false
  ∧ default false (Some (Stitch.stitchOptionsOf (Stitch.StitchBool true))
                   ≫= Stitch.prefixFields) = false.
Proof.
  intros Hpt Hpf Hres.
  assert (Hsub : subschemasOf options schemas = Ok ss).
  { induction Hres as [|[k v] s schemas ss Hv _ IH]; [done|]. simpl.
    rewrite (clientSchema_resolves _ _ options k v s Hv). simpl.
    rewrite IH. simpl. unfold Stitch.transformsOf. by rewrite Hpt, Hpf. }
  split_and!; [|done..].
  unfold Stitch.prepareSchemas. by rewrite Hsub.
Qed.

End StitchMore.

(** The shop and the blog, stitched with [stitchSchemas: true]. *)
Lemma stitching_without_prefixes_witness :
  Stitch.prepareSchemas (λ _ _, Throw "offline") sampleLoader
    [("shop", Stitch.EStr (Some "shop.graphql"));
     ("blog", Stitch.EStr (Some "blog.graphql"))]
    (Some (Stitch.stitchOptionsOf (Stitch.StitchBool true)))
  = Ok ["type Query"; "Query.items"; "Query.posts"].
Proof.
  refine (proj1 (stitching_without_prefixes (λ _ _, Throw "offline") sampleLoader
                   (Some (Stitch.stitchOptionsOf (Stitch.StitchBool true)))
                   _ [sampleSchema "items"; sampleSchema "posts"]
                   eq_refl eq_refl _)).
  repeat constructor; discriminate.
Defined.

(** A remote client that cannot be reached: its error is the error of the
    pass. *)
Lemma stitching_is_all_or_nothing_witness :
  Stitch.prepareSchemas (λ _ _, Throw "fetch failed") sampleLoader
    [("shop", Stitch.EStr (Some "shop.graphql"));
     ("api", Stitch.EStr (Some "https://api.a/graphql"))] None
  = Throw "fetch failed".
Proof.
  refine (proj1 (proj2 (stitching_is_all_or_nothing (λ _ _, Throw "fetch failed")
                          sampleLoader None _))
            [("shop", Stitch.EStr (Some "shop.graphql"))] "api"
            (Stitch.EStr (Some "https://api.a/graphql")) [] "fetch failed"
            eq_refl _ eq_refl).
  intros k' v' H. apply list_elem_of_singleton in H. by simplify_eq.
Defined.

(** Clients whose schema paths are as the resolver leaves them. *)
Lemma variants_agree_without_stitching_witness :
  Stitch.prepareConfig (λ _ _, Throw "offline") sampleLoader id None
    [("default", secretResolved None)]
  = (Ok (Stitch.Specs (Generate.prepareConfig [("default", secretResolved None)]).1),
     (Generate.prepareConfig [("default", secretResolved None)]).2).
Proof.
  apply (variants_agree_without_stitching (λ _ _, Throw "offline") sampleLoader
           id None [("default", secretResolved None)] eq_refl).
  intros k v s Hin Hs Hne. reflexivity.
Defined.

(** ** The earlier [prepareConfig] *)

(** X12. The earlier and the current [prepareConfig].  For a client with a
    schema file both return its path, and for a client with a token and no
    [serverOnly] headers both return the host with the same headers, the
    current one leaving the client as it is.  They part for a client that
    has headers and no token: the earlier one returns the bare host, the
    current one the host with the headers. *)
Theorem earlier_prepareConfig (v : GqlClient TokenOpts) :
  (Js.truthy (schema v) = true →
   Legacy.prepareClient v = (Generate.prepareClient v).1)
  ∧ (Js.truthy (schema v) = false →
     Js.truthy (Generate.tokenValue v) = true →
     Generate.authValue (token v ≫= type) (Generate.tokenValue v) ≠ "" →
     Generate.truthyValue (headers v ≫= (.!! "serverOnly")) = false →
     Legacy.prepareClient v = (Generate.prepareClient v).1
     ∧ (Generate.prepareClient v).2 = v)
  ∧ (Js.truthy (schema v) = false →
     Js.truthy (Generate.tokenValue v) = false →
     Legacy.prepareClient v = Generate.SStr (host v)
     ∧ ∀ h, headers v = Some h →
            (Generate.prepareClient v).1
            = Generate.SUrl (Js.render (host v))
                (Generate.serverHeadersOf (Some h) ∪ Generate.dropServerOnly h)).
Proof.
  split_and!.
  - intros Hs. unfold Legacy.prepareClient, Generate.prepareClient. by rewrite Hs.
  - intros Hs Ht Ha Hso.
    assert (Hsrv : Generate.serverHeadersOf (headers v) = ∅).
    { unfold Generate.serverHeadersOf.
      destruct (headers v ≫= (.!! "serverOnly")) as [[s|m]|]; done. }
    assert (Hdrop : Generate.dropServerOnly <$> headers v = headers v).
    { destruct (headers v) as [h|]; simpl in *; [|done].
      unfold Generate.dropServerOnly. by rewrite Hso. }
    unfold Legacy.prepareClient, Generate.prepareClient. rewrite Hs, Ht. simpl.
    split.
    + f_equal. unfold Generate.introspectionHeaders, Generate.authToken,
        Generate.withToken.
      rewrite Ht, Hsrv, (proj2 (truthy_Some _) Ha).
      destruct (headers v) as [h|]; simpl in *; [|done].
      injection Hdrop as ->. by rewrite (left_id_L ∅ (∪)).
    + unfold Generate.strip, Generate.withHeaders. rewrite Hdrop. by destruct v.
  - intros Hs Ht. split.
    + unfold Legacy.prepareClient. by rewrite Hs, Ht.
    + intros h Hh. unfold Generate.prepareClient. rewrite Hs, Ht, Hh.
      rewrite bool_decide_eq_true_2 by done. simpl.
      unfold Generate.introspectionHeaders, Generate.authToken.
      by rewrite Ht, Hh.
Qed.

(** The client with the token [abc] and no headers. *)
Lemma earlier_prepareConfig_witness :
  Legacy.prepareClient tokenClientCfg = (Generate.prepareClient tokenClientCfg).1.
Proof.
  refine (proj1 (proj1 (proj2 (earlier_prepareConfig tokenClientCfg))
                   eq_refl eq_refl _ eq_refl)).
  discriminate.
Defined.

(** ** Documents and their names *)

Lemma takeName_app_slash (t u : string) :
  Documents.takeName t = t → Documents.takeName (t +:+ "/" +:+ u) = t.
Proof.
  induction t as [|c t IH]; intros Ht; [done|].
  rewrite app_cons_s. simpl in *. destruct (Ascii.eqb c "/"); [done|].
  injection Ht as Ht. by rewrite IH.
Qed.

Lemma prefix_app_r (p s t : string) :
  String.prefix p s = true → String.prefix p (s +:+ t) = true.
Proof.
  intros H. destruct (prefix_inv _ _ H) as [r ->].
  rewrite app_assoc_s. apply prefix_app.
Qed.

Lemma basename_in_directory (dir name : string) :
  Documents.basename name = name →
  Documents.basename (dir +:+ "/" +:+ name) = name.
Proof.
  intros Hname. unfold Documents.basename in *.
  assert (Ht : Documents.takeName (String.rev name) = String.rev name).
  { by rewrite <-Hname at 2; rewrite rev_involutive_s. }
  rewrite !rev_app_s, app_assoc_s.
  change (String.rev "/") with "/".
  by rewrite (takeName_app_slash _ _ Ht), rev_involutive_s.
Qed.

Lemma extension_in_directory (dir name : string) :
  Documents.hasDocumentExtension name = true →
  Documents.hasDocumentExtension (dir +:+ "/" +:+ name) = true.
Proof.
  unfold Documents.hasDocumentExtension, Documents.endsWith.
  rewrite !rev_app_s, !app_assoc_s. intros H.
  apply orb_true_iff in H as [H|H]; apply orb_true_iff; [left|right];
    by apply prefix_app_r.
Qed.

Section DocumentMore.

Context (size : string → N) (resolveFiles : string → list string).

(** X13. Only the file name counts.  For a file name with a document
    extension, whether the file in a directory is taken for a schema file
    depends on the name alone, not on the directory: a document in a
    directory called [schema] is kept like any other. *)
Theorem directory_names_do_not_count (dir name : string) :
  Documents.basename name = name →
  Documents.hasDocumentExtension name = true →
  Documents.isSchema (dir +:+ "/" +:+ name)
  = Js.includes (Js.toLowerCase name) "schema"
  ∧ Documents.allowDocument size (dir +:+ "/" +:+ name)
    = negb (Js.includes (Js.toLowerCase name) "schema")
      && negb (size (dir +:+ "/" +:+ name) =? 0)%N.
Proof.
  intros Hname Hext.
  assert (His : Documents.isSchema (dir +:+ "/" +:+ name)
                = Js.includes (Js.toLowerCase name) "schema").
  { rewrite isSchema_basename by by apply extension_in_directory.
    by rewrite basename_in_directory. }
  split; [done|]. unfold Documents.allowDocument. by rewrite His.
Qed.

(** X14. What the watcher reacts to.  An event on a path without a document
    extension starts nothing.  A deleted document starts a regeneration
    whatever its name.  Any other event starts one exactly when the file
    would be kept as a document: its name has no [schema] in it and the
    file is not empty. *)
Theorem watch_regenerates (event path : string) :
  (Documents.hasDocumentExtension path = false →
   Documents.regenerates size event path = false)
  ∧ (event = "unlink" →
     Documents.regenerates size event path
     = Documents.hasDocumentExtension path)
  ∧ (event ≠ "unlink" →
     Documents.regenerates size event path = true
     ↔ Documents.hasDocumentExtension path = true
       ∧ Js.includes (Js.toLowerCase (Documents.basename path)) "schema" = false
       ∧ size path ≠ 0%N).
Proof.
  split_and!.
  - intros Hext. unfold Documents.regenerates. by rewrite Hext.
  - intros ->. apply regenerates_unlink.
  - apply regenerates_document.
Qed.

Lemma documents_nil (paths : list string) :
  Documents.documents size resolveFiles paths = []
  ↔ ∀ path f, path ∈ paths → f ∈ resolveFiles path →
              Documents.allowDocument size f = false.
Proof.
  split.
  - intros Hnil path f Hpath Hf.
    destruct (Documents.allowDocument size f) eqn:Ha; [|done].
    assert (Hin : f ∈ Documents.documents size resolveFiles paths).
    { unfold Documents.documents. apply list_elem_of_bind. exists path.
      split; [|done]. apply list_elem_of_In, filter_In.
      split; [by apply list_elem_of_In|done]. }
    rewrite Hnil in Hin. by apply elem_of_nil in Hin.
  - intros Hall.
    destruct (Documents.documents size resolveFiles paths) as [|f fs] eqn:Hd;
      [done|].
    assert (Hin : f ∈ Documents.documents size resolveFiles paths)
      by (rewrite Hd; by left).
    unfold Documents.documents in Hin.
    apply list_elem_of_bind in Hin as (path & Hf & Hpath).
    apply list_elem_of_In, filter_In in Hf as [Hf Ha].
    apply list_elem_of_In in Hf.
    by rewrite (Hall path f Hpath Hf) in Ha.
Qed.

(** X15. The plugins follow the documents.  When no listed file is kept as
    a document, and only then, the document set is empty, and the generator
    runs with the types plugin alone; with a document it runs with the
    types, the operations and the client plugin, in that order. *)
Theorem plugins_follow_documents (paths : list string) :
  let docs := Documents.documents size resolveFiles paths in
  (docs = []
   ↔ ∀ path f, path ∈ paths → f ∈ resolveFiles path →
               Documents.allowDocument size f = false)
  ∧ (docs = [] → Documents.plugins docs = ["typescript"])
  ∧ (docs ≠ [] →
     Documents.plugins docs
     = ["typescript"; "typescript-operations"; "ohmygql/plugin"]).
Proof.
  intros docs. split_and!.
  - apply documents_nil.
  - by intros ->.
  - intros Hne. unfold Documents.plugins. by destruct docs.
Qed.

End DocumentMore.

(** A query file in a directory called [schema]. *)
Lemma directory_names_do_not_count_witness :
  Documents.allowDocument sampleSize "graphql/schema/queries.gql" = true.
Proof.
  exact (proj2 (directory_names_do_not_count sampleSize "graphql/schema"
                  "queries.gql" eq_refl eq_refl)).
Defined.

(** A change of the empty file of the sample starts nothing. *)
Lemma watch_regenerates_witness :
  Documents.regenerates sampleSize "change" "src/notes.txt" = false
  ∧ Documents.regenerates sampleSize "unlink" "src/empty.gql" = true.
Proof.
  split.
  - exact (proj1 (watch_regenerates sampleSize "change" "src/notes.txt") eq_refl).
  - exact (proj1 (proj2 (watch_regenerates sampleSize "unlink" "src/empty.gql"))
             eq_refl).
Defined.

(** The sample directory has a document: all three plugins run. *)
Lemma plugins_follow_documents_witness :
  Documents.plugins (Documents.documents sampleSize sampleFiles ["src"])
  = ["typescript"; "typescript-operations"; "ohmygql/plugin"].
Proof.
  apply (proj2 (proj2 (plugins_follow_documents sampleSize sampleFiles ["src"]))).
  discriminate.
Defined.

(** ** The operations handed to the mock plugin *)

Section MockFacts.

Context (parseDocument : string → Result (list Documents.DefinitionNode)).

Local Abbreviation mockOperations := (Documents.mockOperations parseDocument).

Lemma operationText_nonempty (op : Documents.DefinitionNode) (text : string) :
  Documents.operationText op = Some text → text ≠ "".
Proof.
  unfold Documents.operationText. destruct (Documents.loc op) as [[[b f] l]|];
    [|done].
  unfold Js.or. destruct (Js.truthy (Some _)) eqn:H; [|done].
  intros [= <-]. by apply truthy_Some.
Qed.

Lemma addOperation_defines acc op name text :
  Documents.defines op name text → Documents.addOperation acc op = <[name := text]> acc.
Proof.
  intros (Hn & Hne & Ht & Hte). unfold Documents.addOperation. rewrite Hn, Ht.
  by rewrite (proj2 (truthy_Some name) Hne), (proj2 (truthy_Some text) Hte).
Qed.

Lemma addOperation_lookup acc op (n text : string) :
  Documents.addOperation acc op !! n = Some text →
  acc !! n = Some text ∨ Documents.defines op n text.
Proof.
  unfold Documents.addOperation.
  destruct (Documents.defName op) as [name|] eqn:Hn; [|by left].
  destruct (Documents.operationText op) as [o|] eqn:Ho; [|by left].
  destruct (Js.truthy (Some name)) eqn:Htn; [|by left].
  destruct (Js.truthy (Some o)) eqn:Hto; [|by left]. simpl.
  destruct (decide (name = n)) as [->|Hne].
  - rewrite lookup_insert_eq. intros [= ->]. right.
    split_and!; [done|by apply truthy_Some|done|by apply truthy_Some].
  - rewrite lookup_insert_ne by done. by left.
Qed.

Lemma foldl_addOperation_lookup defs acc (n text : string) :
  foldl Documents.addOperation acc defs !! n = Some text →
  acc !! n = Some text ∨ ∃ op, op ∈ defs ∧ Documents.defines op n text.
Proof.
  revert acc. induction defs as [|op defs IH]; intros acc H; [by left|].
  simpl in H. destruct (IH _ H) as [Hacc|(op' & Hin & Hd)].
  - destruct (addOperation_lookup _ _ _ _ Hacc) as [?|Hd]; [by left|].
    right. exists op. split; [by left|done].
  - right. exists op'. split; [by right|done].
Qed.

Lemma mockOperations_lookup docs acc ops (n text : string) :
  mockOperations acc docs = Ok ops → ops !! n = Some text →
  acc !! n = Some text
  ∨ ∃ d defs op, d ∈ docs ∧ parseDocument d = Ok defs ∧ op ∈ defs
                 ∧ Documents.defines op n text.
Proof.
  revert acc. induction docs as [|d docs IH]; intros acc Hrun Hn.
  - simpl in Hrun. simplify_eq. by left.
  - simpl in Hrun. destruct (parseDocument d) as [defs|] eqn:Hd; [|discriminate].
    simpl in Hrun. destruct (IH _ Hrun Hn) as [Hacc|(d' & defs' & op & ? & ? & ? & ?)].
    + destruct (foldl_addOperation_lookup _ _ _ _ Hacc) as [?|(op & Hin & Hdef)];
        [by left|].
      right. exists d, defs, op. split_and!; [by left|done..].
    + right. exists d', defs', op. split_and!; [by right|done..].
Qed.

Lemma mockOperations_app docs1 docs2 acc :
  mockOperations acc (docs1 ++ docs2)
  = acc' ← mockOperations acc docs1; mockOperations acc' docs2.
Proof.
  revert acc. induction docs1 as [|d docs1 IH]; intros acc; [done|]. simpl.
  destruct (parseDocument d) as [defs|]; [|done]. simpl. apply IH.
Qed.

Lemma addOperation_other acc op (n : string) :
  (∀ text, ¬ Documents.defines op n text) →
  Documents.addOperation acc op !! n = acc !! n.
Proof.
  intros Hno. unfold Documents.addOperation.
  destruct (Documents.defName op) as [name|] eqn:Hn; [|done].
  destruct (Documents.operationText op) as [o|] eqn:Ho; [|done].
  destruct (Js.truthy (Some name)) eqn:Htn; [|done].
  destruct (Js.truthy (Some o)) eqn:Hto; [|done]. simpl.
  destruct (decide (name = n)) as [->|Hne].
  - exfalso. apply (Hno o).
    split_and!; [done|by apply truthy_Some|done|by apply truthy_Some].
  - by rewrite lookup_insert_ne.
Qed.

Lemma foldl_addOperation_other defs acc (n : string) :
  (∀ op text, op ∈ defs → ¬ Documents.defines op n text) →
  foldl Documents.addOperation acc defs !! n = acc !! n.
Proof.
  revert acc. induction defs as [|op defs IH]; intros acc Hno; [done|].
  simpl. rewrite IH.
  - apply addOperation_other. intros text. apply Hno. by left.
  - intros op' text Hin. apply Hno. by right.
Qed.

Lemma mockOperations_other docs acc ops (n : string) :
  mockOperations acc docs = Ok ops →
  (∀ d defs op text, d ∈ docs → parseDocument d = Ok defs → op ∈ defs →
                     ¬ Documents.defines op n text) →
  ops !! n = acc !! n.
Proof.
  revert acc. induction docs as [|d docs IH]; intros acc Hrun Hno.
  - simpl in Hrun. by simplify_eq.
  - simpl in Hrun. destruct (parseDocument d) as [defs|] eqn:Hd; [|discriminate].
    simpl in Hrun. rewrite (IH _ Hrun).
    + apply foldl_addOperation_other. intros op text Hin.
      apply (Hno d defs); [by left|done..].
    + intros d' defs' op text Hin. apply Hno. by right.
Qed.

(** X16. The mock operations.  With code generation off, the record handed
    to the mock plugin has an operation's text under its name only if some
    document defines an operation of that name with that text, name and text
    not empty; of the definitions of one name the last one, in the order of
    the documents and within a document, is the one recorded, whatever
    definitions of other names come after it; and a document that does not
    parse makes the pass throw the parser's error. *)
Theorem mock_operations (docs : list string) :
  (∀ ops n text,
     mockOperations ∅ docs = Ok ops → ops !! n = Some text →
     n ≠ "" ∧ text ≠ ""
     ∧ ∃ d defs op, d ∈ docs ∧ parseDocument d = Ok defs ∧ op ∈ defs
                    ∧ Documents.defName op = Some n
                    ∧ Documents.operationText op = Some text)
  ∧ (∀ pre d post before op after ops n text,
       docs = pre ++ d :: post →
       parseDocument d = Ok (before ++ op :: after) →
       Documents.defines op n text →
       (∀ op' text', op' ∈ after → ¬ Documents.defines op' n text') →
       (∀ d' defs' op' text',
          d' ∈ post → parseDocument d' = Ok defs' → op' ∈ defs' →
          ¬ Documents.defines op' n text') →
       mockOperations ∅ docs = Ok ops →
       ops !! n = Some text)
  ∧ (∀ pre d post msg,
       docs = pre ++ d :: post →
       (∀ d', d' ∈ pre → is_ok (parseDocument d') = true) →
       parseDocument d = Throw msg →
       mockOperations ∅ docs = Throw msg).
Proof.
  split_and!.
  - intros ops n text Hrun Hn.
    destruct (mockOperations_lookup docs ∅ ops n text Hrun Hn)
      as [Hempty|(d & defs & op & Hd & Hp & Hop & Hname & Hne & Htext & Hte)].
    { by rewrite lookup_empty in Hempty. }
    split_and!; [done..|]. by exists d, defs, op.
  - intros pre d post before op after ops n text -> Hd Hdef Hafter Hpost Hrun.
    rewrite mockOperations_app in Hrun.
    destruct (mockOperations ∅ pre) as [acc|]; [|discriminate].
    simpl in Hrun. rewrite Hd in Hrun. simpl in Hrun.
    rewrite (mockOperations_other _ _ _ n Hrun Hpost).
    rewrite foldl_app. simpl.
    rewrite (foldl_addOperation_other _ _ n Hafter).
    rewrite (addOperation_defines _ op n text Hdef). apply lookup_insert_eq.
  - intros pre d post msg -> Hpre Hd. generalize (∅ : gmap string string).
    induction pre as [|d0 pre IH]; intros acc; simpl.
    + by rewrite Hd.
    + assert (H0 : is_ok (parseDocument d0) = true) by (apply Hpre; by left).
      destruct (parseDocument d0) as [defs0|]; [|done]. simpl.
      apply IH. intros d' H. apply Hpre. by right.
Qed.

End MockFacts.

(** Both documents define [GetUser]; the definition of the second document
    is the one recorded, though [GetTeam] is defined after it. *)
Lemma mock_operations_witness :
  ∃ ops,
    Documents.mockOperations shadowParser ∅ ["users.gql"; "more.gql"] = Ok ops
    ∧ ops !! "GetUser" = Some "query GetUser { user { id } }".
Proof.
  eexists. split; [reflexivity|].
  refine (proj1 (proj2 (mock_operations shadowParser ["users.gql"; "more.gql"]))
            ["users.gql"] "more.gql" [] []
            {| Documents.defName := Some "GetUser";
               Documents.loc := Some (moreText, 0, 29) |}
            [ {| Documents.defName := Some "GetTeam";
                 Documents.loc := Some (moreText, 30, 52) |} ]
            _ "GetUser" "query GetUser { user { id } }"
            eq_refl eq_refl _ _ _ eq_refl).
  - by split_and!.
  - intros op' text' Hin (Hname & _). apply list_elem_of_singleton in Hin.
    subst op'. discriminate Hname.
  - intros d' defs' op' text' Hin. by apply elem_of_nil in Hin.
Defined.

(** ** Headers and tokens at run time *)

Lemma orDefault_truthy (k : string) : k ≠ "" → Composables.orDefault (Some k) = k.
Proof.
  intros Hk. unfold Composables.orDefault.
  by rewrite or_truthy_l by by apply truthy_Some.
Qed.

Lemma orDefault_nonempty (c : option string) : Composables.orDefault c ≠ "".
Proof.
  unfold Composables.orDefault, Js.or. destruct (Js.truthy c) eqn:H; [|done].
  destruct (truthy_inv _ H) as (s & -> & Hs). done.
Qed.

Lemma withHeaders_same (c : GqlClient TokenOpts) :
  Generate.withHeaders (headers c) c = c.
Proof. by destruct c. Qed.

Lemma alter_same {A} (f : A → A) (k : string) (m : gmap string A) :
  (∀ x, m !! k = Some x → f x = x) → alter f k m = m.
Proof.
  intros Hf. apply map_eq. intros i. rewrite lookup_alter. case_decide as Hi.
  - subst i. destruct (m !! k) as [x|] eqn:Hx; simpl; [|done].
    by rewrite (Hf x).
  - done.
Qed.

Section HeadersMore.

Context (server : bool) (clients : gmap string (GqlClient TokenOpts)).

(** X17. [useGqlHeaders] at its edges.  The headers given are always patched
    in first.  Nothing more happens unless [respectDefaults] is set and the
    headers given are empty.  With [respectDefaults] and [null] for headers
    the call throws after that first patch.  With [respectDefaults], empty
    headers and a client that has no default headers in the runtime config,
    or that is not in it, the second patch has no header and the runtime
    config stays as it is. *)
Theorem useGqlHeaders_edges (args : Composables.HeadersArgs) :
  let first :=
    Composables.setGqlState (Composables.client args)
      (Composables.PHeaders
         (fmap (M := gmap string) (Some ∘ HStr) <$> Composables.headers args)) in
  hd_error (Composables.useGqlHeaders server clients args).1 = Some first
  ∧ (default false (Composables.respectDefaults args) = false →
     Composables.useGqlHeaders server clients args = ([first], Ok clients))
  ∧ (∀ h, Composables.headers args = Some h → h ≠ ∅ →
          Composables.useGqlHeaders server clients args = ([first], Ok clients))
  ∧ (Composables.respectDefaults args = Some true →
     Composables.headers args = None →
     Composables.useGqlHeaders server clients args
     = ([first], Throw "TypeError: Cannot convert undefined or null to object"))
  ∧ (Composables.respectDefaults args = Some true →
     Composables.headers args = Some ∅ →
     clients !! Composables.orDefault (Composables.client args) ≫= headers = None →
     Composables.useGqlHeaders server clients args
     = ([first; Composables.setGqlState (Composables.client args)
                  (Composables.PHeaders (Some ∅))],
        Ok clients)).
Proof.
  intros first. unfold Composables.useGqlHeaders. fold first. split_and!.
  - destruct (default false _); [|done].
    destruct (Composables.headers args) as [h|]; [|done].
    by destruct (bool_decide _).
  - by intros ->.
  - intros h Hh Hne. rewrite Hh. destruct (default false _); [|done].
    by rewrite bool_decide_eq_false_2.
  - intros Hr Hh. subst first. by rewrite Hr, Hh.
  - intros Hr Hh Hnone. subst first. rewrite Hr, Hh, Hnone. simpl.
    rewrite bool_decide_eq_true_2 by done.
    assert (Hsrv : (if server then Generate.serverHeadersOf None else ∅)
                   = (∅ : Headers)) by by destruct server.
    rewrite Hsrv, (left_id_L ∅ (∪)), fmap_empty. do 2 f_equal.
    apply alter_same. intros c Hc. rewrite Hc in Hnone. simpl in Hnone.
    rewrite <-Hnone. apply withHeaders_same.
Qed.

(** X18. The server-only defaults are used once.  After a call that
    respects the defaults for a client with a [serverOnly] sub-mapping, the
    runtime config the call leaves has no [serverOnly] for that client; the
    same call made again on that config, on the server too, patches the
    plain default headers without the server-only entries, and leaves the
    config as it is. *)
Theorem server_only_defaults_are_used_once
    (args : Composables.HeadersArgs) (c : GqlClient TokenOpts)
    (h : Headers) (m : gmap string string) :
  clients !! Composables.orDefault (Composables.client args) = Some c →
  headers c = Some h → h !! "serverOnly" = Some (HObj m) →
  Composables.respectDefaults args = Some true →
  Composables.headers args = Some ∅ →
  ∃ clients1,
    (Composables.useGqlHeaders server clients args).2 = Ok clients1
    ∧ clients1 !! Composables.orDefault (Composables.client args) ≫= headers
      = Some (delete "serverOnly" h)
    ∧ Composables.useGqlHeaders server clients1 args
      = ([Composables.setGqlState (Composables.client args)
            (Composables.PHeaders (Some ∅));
          Composables.setGqlState (Composables.client args)
            (Composables.PHeaders (Some (Some <$> delete "serverOnly" h)))],
         Ok clients1).
Proof.
  intros Hc Hh Hm Hr Ha.
  rewrite (useGqlHeaders_defaults server clients args c h m Hc Hh Hm Hr Ha).
  eexists. split; [reflexivity|].
  set (key := Composables.orDefault (Composables.client args)).
  set (c1 := Generate.withHeaders (Some (delete "serverOnly" h)) c).
  assert (Hc1 : <[key := c1]> clients !! key = Some c1) by apply lookup_insert_eq.
  split; [by rewrite Hc1|].
  unfold Composables.useGqlHeaders. fold key. rewrite Hr, Ha, Hc1. simpl.
  rewrite bool_decide_eq_true_2 by done.
  unfold Generate.serverHeadersOf, Generate.dropServerOnly. simpl.
  rewrite lookup_delete_eq. simpl.
  assert (Hsrv : (if server then ∅ else ∅) = (∅ : Headers)) by by destruct server.
  rewrite Hsrv, (left_id_L ∅ (∪)), fmap_empty. do 2 f_equal.
  apply alter_same. intros x Hx. rewrite Hc1 in Hx. by injection Hx as <-.
Qed.

(** X19. The header of [useGqlToken].  The header name is the one written
    in the config of the call, be it [undefined], else the client's in the
    runtime config when that is not empty, else [Authorization]; the type is
    the one written in the config of the call, be it [undefined], else the
    client's in the runtime config when it is defined, be it empty, else
    [Bearer].  A config that writes [type: undefined] so gives the header
    value [undefined <token>].  The one patch goes to the client named in
    the call, or to [default]. *)
Theorem token_config_precedence (args : Composables.TokenArgs) :
  let cfg := Composables.tokenConfig clients args in
  let stored :=
    clients !! Composables.orDefault (Composables.tokenClient args) ≫= token in
  Composables.target (Composables.useGqlToken clients args)
  = default "default" (Composables.tokenClient args)
  ∧ (∀ written,
       Composables.config args ≫= Composables.givenName = Some written →
       Composables.name cfg = written)
  ∧ (Composables.config args ≫= Composables.givenName = None →
     Composables.name cfg
     = if Js.truthy (stored ≫= name) then stored ≫= name
       else Some "Authorization")
  ∧ (∀ written,
       Composables.config args ≫= Composables.givenType = Some written →
       Composables.type cfg = written)
  ∧ (Composables.config args ≫= Composables.givenType = None →
     Composables.type cfg = Some (default "Bearer" (stored ≫= type)))
  ∧ (∀ t, Composables.token args = Some t → t ≠ "" →
          Composables.config args ≫= Composables.givenType = Some None →
          Composables.patch (Composables.useGqlToken clients args)
          = Composables.PHeaders (Some
              {[ Js.render (Composables.name cfg)
                 := Some (HStr (Js.trim ("undefined " +:+ t))) ]})).
Proof.
  intros cfg stored. unfold Composables.useGqlToken. fold cfg.
  unfold cfg, Composables.tokenConfig. fold stored. simpl.
  split_and!.
  - done.
  - by intros written ->.
  - by intros ->.
  - by intros written ->.
  - intros ->. by destruct (stored ≫= type).
  - intros t Ht Hne ->. unfold Composables.tokenHeader. rewrite Ht.
    by rewrite (proj2 (truthy_Some t) Hne).
Qed.

End HeadersMore.

(** The runtime config of the sample client: a second call on the server
    sends [X-Api] alone. *)
Lemma server_only_defaults_are_used_once_witness :
  ∃ clients1,
    (Composables.useGqlHeaders true {[ "default" := secretResolved None ]}
       (Composables.mkHeadersArgs (Some ∅) None (Some true))).2 = Ok clients1
    ∧ Composables.useGqlHeaders true clients1
        (Composables.mkHeadersArgs (Some ∅) None (Some true))
      = ([Composables.setGqlState None (Composables.PHeaders (Some ∅));
          Composables.setGqlState None
            (Composables.PHeaders
               (Some (Some <$> delete "serverOnly" secretHeaders)))],
         Ok clients1).
Proof.
  edestruct (server_only_defaults_are_used_once true
               {[ "default" := secretResolved None ]}
               (Composables.mkHeadersArgs (Some ∅) None (Some true))
               (secretResolved None) secretHeaders {[ "X-Secret" := "s3cr3t" ]})
    as (clients1 & H1 & _ & H2); [reflexivity..|].
  by exists clients1.
Defined.

(** [useGqlHeaders(null)] with [respectDefaults] throws. *)
Lemma useGqlHeaders_edges_witness :
  (Composables.useGqlHeaders true ∅
     (Composables.mkHeadersArgs None None (Some true))).2
  = Throw "TypeError: Cannot convert undefined or null to object".
Proof.
  by rewrite (proj1 (proj2 (proj2 (proj2 (useGqlHeaders_edges true ∅
                (Composables.mkHeadersArgs None None (Some true))))))
                eq_refl eq_refl).
Defined.

(** A call whose config writes [type: undefined], for the token [abc]. *)
Lemma token_config_precedence_witness :
  Composables.patch
    (Composables.useGqlToken {[ "default" := tokenClientCfg ]}
       (Composables.mkTokenArgs (Some "abc") None
          (Some (Composables.mkGivenConfig None (Some None)))))
  = Composables.PHeaders (Some {[ "Authorization" := Some (HStr "undefined abc") ]}).
Proof.
  refine (proj2 (proj2 (proj2 (proj2 (proj2
            (token_config_precedence {[ "default" := tokenClientCfg ]}
               (Composables.mkTokenArgs (Some "abc") None
                  (Some (Composables.mkGivenConfig None (Some None))))))))) 
            "abc" eq_refl _ eq_refl).
  discriminate.
Defined.

(** ** From [setup] to the runtime token *)

Section RuntimeToken.

Context (env : gmap string string) (pubHost pubClientHost : option string).
Context (resolve : string → string) (existsSync : string → bool).

Local Abbreviation resolveClient := (Setup.resolveClient env resolve existsSync).
Local Abbreviation setup := (Setup.setup env pubHost pubClientHost resolve existsSync).

Lemma tokenNameOf_truthy (k : string) (v : ClientCfg) :
  Js.truthy (Setup.tokenNameOf env k v) = true.
Proof.
  unfold Setup.tokenNameOf, Js.or at 1.
  by destruct (Js.truthy (Js.or _ _)) eqn:H.
Qed.

Lemma resolveClient_public_token (k : string) (v : ClientCfg) out :
  resolveClient k v = Ok out →
  ∃ tokp, token (Setup.publicConf out) = Some tokp
          ∧ name tokp = Setup.tokenNameOf env k v
          ∧ type tokp = Some (Setup.tokenTypeOf v).
Proof.
  unfold Setup.resolveClient. destruct (negb _); [discriminate|].
  intros [= <-]. simpl. rewrite tokenNameOf_truthy.
  destruct (_ && _); simpl; eexists; split_and!; done.
Qed.

(** X20. The runtime token header is the resolved one.  For a client that
    [setup] resolved, [useGqlToken] called with a token and no config of its
    own patches, on that client, the header whose name is the resolved token
    name (the client's variable, else the user's, else [Authorization]) to
    the resolved type (the user's, else [Bearer]) followed by the token. *)
Theorem runtime_token_uses_resolved_header
    (clients : list (string * ClientCfg)) (st : Setup.Resolved)
    (k : string) (v : ClientCfg) (t name : string) :
  setup clients = Ok st → NoDup clients.*1 → (k, v) ∈ clients →
  k ≠ "" → t ≠ "" → Setup.tokenNameOf env k v = Some name →
  Composables.useGqlToken (Setup.public_clients st)
    (Composables.mkTokenArgs (Some t) (Some k) None)
  = Composables.setGqlState (Some k)
      (Composables.PHeaders (Some
         {[ name := Some (HStr (Js.trim (Setup.tokenTypeOf v +:+ " " +:+ t))) ]})).
Proof.
  intros Hst Hnd Hin Hk Ht Hname.
  rewrite setup_nonempty in Hst by (intros ->; by apply elem_of_nil in Hin).
  pose proof Hst as Hst'. apply resolveClients_ok in Hst' as (_ & _ & He).
  destruct (He k v Hin) as (out & Hout & _).
  pose proof Hst as Hl.
  eapply resolveClients_lookup in Hl as (Hp & _ & _); [|done|exact Hin|exact Hout].
  destruct (resolveClient_public_token k v out Hout) as (tokp & Htok & Hn & Hty).
  unfold Composables.useGqlToken, Composables.tokenConfig, Composables.tokenHeader.
  simpl. rewrite (orDefault_truthy k Hk), Hp. simpl. rewrite Htok. simpl.
  rewrite Hn, Hty, tokenNameOf_truthy, Hname. simpl.
  apply String.eqb_neq in Ht. by rewrite Ht.
Qed.

End RuntimeToken.

(** [blog] of the sample, given the token [xyz] at run time. *)
Lemma runtime_token_uses_resolved_header_witness :
  ∃ st,
    Setup.setup blogEnv None None id (λ _, true)
      [("default", CStr "https://api.a/graphql"); ("blog", blogClient)] = Ok st
    ∧ Composables.useGqlToken (Setup.public_clients st)
        (Composables.mkTokenArgs (Some "xyz") (Some "blog") None)
      = Composables.setGqlState (Some "blog")
          (Composables.PHeaders (Some
             {[ "Authorization" := Some (HStr "Bearer xyz") ]})).
Proof.
  eexists. split; [reflexivity|].
  apply (runtime_token_uses_resolved_header blogEnv None None id (λ _, true)
           [("default", CStr "https://api.a/graphql"); ("blog", blogClient)]
           _ "blog" blogClient "xyz" "Authorization" eq_refl).
  - apply (NoDup_cons_2 "default"); [|apply NoDup_singleton].
    intros H. apply list_elem_of_singleton in H. discriminate.
  - right. by left.
  - discriminate.
  - discriminate.
  - reflexivity.
Defined.

(** ** More on the error slot and on dispatch *)

Section ErrorMore.

Context {Callback Json Operation : Type}.
Context (extractOperation : string → Operation).

Local Abbreviation State := (Composables.ErrorState Callback Json Operation).
Local Abbreviation Event := (Composables.Event Callback Json).
Local Abbreviation Failure := (Composables.Failure Json).
Local Abbreviation captured := (Composables.captured extractOperation).
Local Abbreviation onResponseError := (Composables.onResponseError extractOperation).
Local Abbreviation run := (Composables.run extractOperation).
Local Abbreviation step := (Composables.step extractOperation).

Lemma run_cons (ev : Event) (evs : list Event) (st : State) :
  run (ev :: evs) st
  = ((run evs (step ev st).1).1, (step ev st).2 ++ (run evs (step ev st).1).2).
Proof.
  cbn [Composables.run].
  destruct (Composables.step extractOperation ev st) as [st1 ds1].
  cbn [fst snd].
  by destruct (Composables.run extractOperation evs st1).
Qed.

(** X21. What the slot and the handlers see over time.  Over any sequence of
    failures and registrations: a slot that holds an error goes on holding
    one; registrations alone leave the slot as it is; and every error a
    handler is called with is the one the slot held at the start or the one
    captured from a failure of the sequence. *)
Theorem error_slot_over_time (evs : list Event) (st : State) :
  (is_Some (Composables.errState st) →
   is_Some (Composables.errState (run evs st).1))
  ∧ ((∀ c f, Composables.Fails c f ∉ evs) →
     Composables.errState (run evs st).1 = Composables.errState st)
  ∧ (∀ d, d ∈ (run evs st).2 →
       Some (Composables.delivered d) = Composables.errState st
       ∨ ∃ c f, Composables.Fails c f ∈ evs
                ∧ Composables.delivered d = captured c f).
Proof.
  revert st. induction evs as [|ev evs IH]; intros st.
  - split_and!; [done|done|]. intros d Hd. by apply elem_of_nil in Hd.
  - rewrite run_cons. simpl.
    destruct (IH (step ev st).1) as (IH1 & IH2 & IH3). split_and!.
    + intros Hsome. apply IH1. by destruct ev.
    + intros Hno. rewrite IH2.
      * destruct ev as [c f|ic pr cb]; [|done].
        exfalso. apply (Hno c f). by left.
      * intros c f Hin. apply (Hno c f). by right.
    + intros d Hd. apply elem_of_app in Hd as [Hd|Hd].
      * destruct ev as [c f|ic pr cb]; simpl in Hd.
        -- right. exists c, f. split; [by left|].
           destruct (Composables.onError st); [|by apply elem_of_nil in Hd].
           apply list_elem_of_singleton in Hd. by subst d.
        -- left. destruct (Composables.errState st) as [e|];
             [|by apply elem_of_nil in Hd].
           apply list_elem_of_singleton in Hd. by subst d.
      * destruct (IH3 d Hd) as [Hstart|(c & f & Hin & Hcap)].
        -- destruct ev as [c f|ic pr cb]; simpl in Hstart.
           ++ right. exists c, f. split; [by left|]. by injection Hstart.
           ++ by left.
        -- right. exists c, f. split; [by right|done].
Qed.

Lemma failures_reach_the_handler
    (fs : list (option string * Failure)) (st : State) :
  (run ((λ cf, Composables.Fails cf.1 cf.2) <$> fs) st).2
  = match Composables.onError st with
    | Some h => (λ cf, Composables.mkDelivery h (captured cf.1 cf.2)) <$> fs
    | None => []
    end.
Proof.
  revert st. induction fs as [|[c f] fs IH]; intros st.
  - simpl. by destruct (Composables.onError st).
  - rewrite fmap_cons, run_cons, IH. simpl.
    by destruct (Composables.onError st).
Qed.

(** X22. Who hears of failures.  After [useGqlError] has run, every failing
    response that follows is delivered, in order and each with its own
    captured error, to the callback given when the registration ran on the
    client side, to the console logger when it ran on the server outside
    production, and to nobody when it ran on the server in production,
    whatever handler was there before. *)
Theorem who_hears_of_failures
    (isClient production : bool) (cb : Callback) (st : State)
    (fs : list (option string * Failure)) :
  (run ((λ cf, Composables.Fails cf.1 cf.2) <$> fs)
       (Composables.useGqlError isClient production cb st).1).2
  = if isClient
    then (λ cf, Composables.mkDelivery (Composables.UserCallback cb)
                  (captured cf.1 cf.2)) <$> fs
    else if production then []
    else (λ cf, Composables.mkDelivery Composables.ConsoleError
                  (captured cf.1 cf.2)) <$> fs.
Proof.
  rewrite failures_reach_the_handler. simpl.
  by destruct isClient, production.
Qed.

End ErrorMore.

Section DispatchMore.

Context {Instance : Type}.

(** X23. Dispatch never picks a stranger.  The client [useAsyncGql] picks
    for an operation either lists the operation, or is [default] because no
    client lists it.  A client whose key is the empty string never gets its
    own instance: an operation it is the first to list runs on the instance
    of [default]. *)
Theorem dispatch_owner_lists_operation
    (ops : list (string * list string)) (state : gmap string Instance)
    (operation : string) :
  ((∃ l, (Composables.ownerOf ops operation, l) ∈ ops ∧ operation ∈ l)
   ∨ (Composables.ownerOf ops operation = "default"
      ∧ ∀ k l, (k, l) ∈ ops → operation ∉ l))
  ∧ (∀ pre l post,
       ops = pre ++ ("", l) :: post →
       (∀ k' l', (k', l') ∈ pre → operation ∉ l') →
       operation ∈ l →
       Composables.dispatch ops state operation
       = Composables.handle state (Some "default")).
Proof.
  split.
  - unfold Composables.ownerOf.
    destruct (List.find _ ops) as [[k l]|] eqn:Hfind.
    + left. apply find_some in Hfind as [Hin Hop]. simpl in *. exists l.
      split; [by apply list_elem_of_In|]. by apply bool_decide_eq_true in Hop.
    + right. split; [done|]. intros k l Hin Hop.
      apply list_elem_of_In in Hin.
      pose proof (List.find_none _ _ Hfind (k, l) Hin) as Hf. simpl in Hf.
      by apply bool_decide_eq_false in Hf.
  - intros pre l post -> Hpre Hop.
    unfold Composables.dispatch, Composables.ownerOf.
    by rewrite (find_first _ operation pre "" l post eq_refl Hpre Hop).
Qed.

End DispatchMore.

(** A slot holding the error of [GetUser] still holds one after a failure
    of [GetPost] on [blog] and a registration on the client side. *)
Lemma error_slot_over_time_witness :
  is_Some (Composables.errState
    (Composables.run (Callback := unit) (Json := unit) id
       [Composables.Fails (Some "blog")
          (Composables.mkFailure (Some 500%Z) None tt (Some "query GetPost"));
        Composables.Registers true false tt]
       (Composables.mkErrorState
          (Some (Composables.mkGqlError "default" (Some 400%Z) "query GetUser" [tt]))
          None)).1).
Proof.
  apply (proj1 (error_slot_over_time (Callback := unit) (Json := unit) id
    [Composables.Fails (Some "blog")
       (Composables.mkFailure (Some 500%Z) None tt (Some "query GetPost"));
     Composables.Registers true false tt]
    (Composables.mkErrorState
       (Some (Composables.mkGqlError "default" (Some 400%Z) "query GetUser" [tt]))
       None))).
  by eexists.
Defined.

(** [GetPost] listed first by a client keyed by the empty string runs on the
    instance of [default]. *)
Lemma dispatch_owner_lists_operation_witness :
  Composables.dispatch
    [("", ["GetPost"]); ("blog", ["GetPost"])]
    {[ "default" := "https://api.a/graphql"; "blog" := "https://api.b/graphql" ]}
    "GetPost"
  = Ok "https://api.a/graphql".
Proof.
  refine (eq_trans
    (proj2 (dispatch_owner_lists_operation
              [("", ["GetPost"]); ("blog", ["GetPost"])]
              {[ "default" := "https://api.a/graphql";
                 "blog" := "https://api.b/graphql" ]} "GetPost")
       [] ["GetPost"] [("blog", ["GetPost"])] eq_refl _ _) _).
  - intros k' l' H. by apply elem_of_nil in H.
  - by left.
  - reflexivity.
Defined.
